(** * Verification model of [src/App.tsx] (animador-de-imagem)

    The single React component [App] is modelled as:
    - its [useState] cells, gathered in the record [app_state];
    - the browser's object-URL store ([URL.createObjectURL] /
      [URL.revokeObjectURL]) and a log of the external calls the code makes
      (file read, video submission, timer, poll, fetch), gathered in [world];
    - the async callback [handleGenerateVideo], translated the way an async
      function is compiled to a state machine: one [phase] per [await], a
      function [body_resume] for the code between two awaits inside the
      [try] block, and [try_catch_finally] for the [catch]/[finally] clauses;
    - a system layer ([sys]) that holds every flow still in flight and
      interleaves them with the UI events, gated by what [renderContent]
      puts on screen. *)

From Stdlib Require Import String Ascii List Bool ZArith Lia.
Import ListNotations.
Open Scope list_scope.
Open Scope string_scope.

(** ** Data *)

(** An object URL ("blob:..."), identified by the counter of the store. *)
Definition url := nat.

(** A [File] chosen in the file input: only its name and MIME type matter. *)
Record file := mkFile { file_name : string; file_type : string }.

(** A [Blob] returned by [videoResponse.blob()]. *)
Record blob := mkBlob { blob_id : nat }.

(** What an object URL was created from. *)
Inductive obj_source := SrcFile (f : file) | SrcBlob (b : blob).

Inductive aspect_ratio := AR_16_9 | AR_9_16.

(** [operation] returned by [generateVideos] / [getVideosOperation]:
    [op_uri] is [operation.response?.generatedVideos?.[0]?.video?.uri]. *)
Record operation := mkOp { op_done : bool; op_uri : option string }.

(** The [Response] of [fetch]: [ok] and [statusText]. *)
Record http_response := mkResp { resp_ok : bool; resp_statusText : string }.

(** A thrown value: an [Error] with its [message], or anything else. *)
Inductive thrown := ErrorObj (message : string) | NonError.

(** External calls issued by the code (the requests behind each await). *)
Inductive call :=
| CReadDataURL (f : file)                           (* fileToBase64 *)
| CGenerateVideos (prompt : string) (imageBytes : option string)
    (mimeType : string) (numberOfVideos : nat) (resolution : string)
    (aspect : aspect_ratio)                         (* ai.models.generateVideos *)
| CSetTimeout (ms : Z)                            (* setTimeout(resolve, ms) *)
| CGetVideosOperation (op : operation)              (* ai.operations.getVideosOperation *)
| CFetch (target : string)                          (* fetch(`${videoUri}&key=...`) *)
| CReadBlob.                                        (* videoResponse.blob() *)

(** The value an awaited promise settles with. *)
Inductive value :=
| VStr (s : string) | VOp (op : operation) | VResp (r : http_response)
| VBlob (b : blob) | VUnit.

Inductive settle := Resolve (v : value) | Reject (e : thrown).

(** ** React state of [App] *)

Record app_state := mkApp {
  apiKeySelected : option bool;
  imageFile : option file;
  imagePreview : option url;
  prompt : string;
  aspectRatio : aspect_ratio;
  isLoading : bool;
  loadingMessage : string;
  generatedVideoUrl : option url;
  error : option string }.

(** The browser around the component: the live object URLs with their
    source, the next fresh URL, the log of external calls and
    [process.env.API_KEY] (read-only). *)
Record world := mkWorld {
  app : app_state;
  live_urls : list (url * obj_source);
  next_url : nat;
  calls : list call;
  env_api_key : option string }.

Definition with_app (f : app_state -> app_state) (w : world) : world :=
  mkWorld (f (app w)) (live_urls w) (next_url w) (calls w) (env_api_key w).

(** The [useState] setters (a setter only replaces its own cell). *)
Definition setApiKeySelected (v : option bool) : world -> world :=
  with_app (fun a => mkApp v (imageFile a) (imagePreview a) (prompt a)
    (aspectRatio a) (isLoading a) (loadingMessage a) (generatedVideoUrl a) (error a)).
Definition setImageFile (v : option file) : world -> world :=
  with_app (fun a => mkApp (apiKeySelected a) v (imagePreview a) (prompt a)
    (aspectRatio a) (isLoading a) (loadingMessage a) (generatedVideoUrl a) (error a)).
Definition setImagePreview (v : option url) : world -> world :=
  with_app (fun a => mkApp (apiKeySelected a) (imageFile a) v (prompt a)
    (aspectRatio a) (isLoading a) (loadingMessage a) (generatedVideoUrl a) (error a)).
Definition setPrompt (v : string) : world -> world :=
  with_app (fun a => mkApp (apiKeySelected a) (imageFile a) (imagePreview a) v
    (aspectRatio a) (isLoading a) (loadingMessage a) (generatedVideoUrl a) (error a)).
Definition setAspectRatio (v : aspect_ratio) : world -> world :=
  with_app (fun a => mkApp (apiKeySelected a) (imageFile a) (imagePreview a) (prompt a)
    v (isLoading a) (loadingMessage a) (generatedVideoUrl a) (error a)).
Definition setIsLoading (v : bool) : world -> world :=
  with_app (fun a => mkApp (apiKeySelected a) (imageFile a) (imagePreview a) (prompt a)
    (aspectRatio a) v (loadingMessage a) (generatedVideoUrl a) (error a)).
Definition setLoadingMessage (v : string) : world -> world :=
  with_app (fun a => mkApp (apiKeySelected a) (imageFile a) (imagePreview a) (prompt a)
    (aspectRatio a) (isLoading a) v (generatedVideoUrl a) (error a)).
Definition set_generatedVideoUrl_cell (v : option url) : world -> world :=
  with_app (fun a => mkApp (apiKeySelected a) (imageFile a) (imagePreview a) (prompt a)
    (aspectRatio a) (isLoading a) (loadingMessage a) v (error a)).
Definition setError (v : option string) : world -> world :=
  with_app (fun a => mkApp (apiKeySelected a) (imageFile a) (imagePreview a) (prompt a)
    (aspectRatio a) (isLoading a) (loadingMessage a) (generatedVideoUrl a) v).

(** ** Object-URL store *)

(** [URL.createObjectURL(src)]: a fresh URL, live from now on. *)
Definition createObjectURL (src : obj_source) (w : world) : url * world :=
  (next_url w,
   mkWorld (app w) ((next_url w, src) :: live_urls w) (S (next_url w))
     (calls w) (env_api_key w)).

(** [URL.revokeObjectURL(u)]: [u] is no longer live (no-op if it was not). *)
Definition revokeObjectURL (u : url) (w : world) : world :=
  mkWorld (app w) (filter (fun e => negb (Nat.eqb (fst e) u)) (live_urls w))
    (next_url w) (calls w) (env_api_key w).

Definition opt_url_eqb (x y : option url) : bool :=
  match x, y with
  | Some a, Some b => Nat.eqb a b
  | None, None => true
  | _, _ => false
  end.

(** [setGeneratedVideoUrl(v)] together with the effect
    [useEffect(() => { const urlToRevoke = generatedVideoUrl;
                       return () => { if (urlToRevoke) URL.revokeObjectURL(urlToRevoke) } },
              [generatedVideoUrl])]:
    when the cell changes, the commit runs the cleanup of the previous
    effect, which revokes the previous URL. The commit is folded into the
    setter. *)
Definition setGeneratedVideoUrl (v : option url) (w : world) : world :=
  let old := generatedVideoUrl (app w) in
  if opt_url_eqb old v then w
  else
    let w1 := match old with Some u => revokeObjectURL u w | None => w end in
    set_generatedVideoUrl_cell v w1.

(** Appending an external call to the log. *)
Definition issue (c : call) (w : world) : world :=
  mkWorld (app w) (live_urls w) (next_url w) (List.app (calls w) [c]) (env_api_key w).

(** ** JavaScript helpers *)

(** JS truthiness of a possibly-undefined string. *)
Definition truthy (s : option string) : bool :=
  match s with Some (String _ _) => true | _ => false end.

(** [s.includes(pat)]. *)
Fixpoint includes (s pat : string) : bool :=
  String.prefix pat s ||
  match s with EmptyString => false | String _ s' => includes s' pat end.

(** [s.split(c)]. *)
Fixpoint split_on (c : ascii) (s : string) : list string :=
  match s with
  | EmptyString => [EmptyString]
  | String a s' =>
      if Ascii.eqb a c then EmptyString :: split_on c s'
      else match split_on c s' with
           | x :: xs => String a x :: xs
           | [] => [String a EmptyString]
           end
  end.

(** [fileToBase64]'s [result.split(',')[1]] ([undefined] is [None]). *)
Definition data_url_payload (result : string) : option string :=
  nth_error (split_on "," result) 1.

(** ** The generation flow ([handleGenerateVideo]) *)

Definition entity_not_found : string := "Requested entity was not found".
Definition validation_msg : string := "Please upload an image and provide a prompt.".
Definition auth_msg : string :=
  "Your API key is invalid or not configured. Please select a valid key.".
Definition no_uri_msg : string :=
  "Video generation completed, but no video URI was found.".
Definition unknown_msg : string := "An unknown error occurred.".

(** The values captured by the [useCallback] closure
    ([imageFile] is non-null once the guard has passed). *)
Record flow_ctx := mkCtx { c_file : file; c_prompt : string; c_aspect : aspect_ratio }.

(** Completion of the async function's promise. *)
Inductive completion := Fulfilled | Rejected (e : thrown).

(** Await points of [handleGenerateVideo], with the live locals. *)
Inductive phase :=
| PReadFile                       (* await fileToBase64(imageFile) *)
| PGenerate                       (* await ai.models.generateVideos(...) *)
| PSleep (operation : operation)  (* await new Promise(r => setTimeout(r, 10000)) *)
| PPoll (operation : operation)   (* await ai.operations.getVideosOperation(...) *)
| PFetch                          (* await fetch(...) *)
| PBlob                           (* await videoResponse.blob() *)
| PDone (c : completion).

(** Outcome of a piece of the [try] block. *)
Inductive seg := SAwait (p : phase) | SThrow (e : thrown) | SReturn.

(** After the [while] loop: read the URI, fetch or throw. *)
Definition after_loop (operation : operation) (w : world) : seg * world :=
  let videoUri := op_uri operation in
  if truthy videoUri && truthy (env_api_key w) then
    match videoUri, env_api_key w with
    | Some u, Some k => (SAwait PFetch, issue (CFetch (u ++ "&key=" ++ k)) w)
    | _, _ => (SThrow (ErrorObj no_uri_msg), w)
    end
  else (SThrow (ErrorObj no_uri_msg), w).

(** [while (!operation.done) { await sleep(10000); ... }]: the loop test. *)
Definition loop_check (operation : operation) (w : world) : seg * world :=
  if negb (op_done operation) then (SAwait (PSleep operation), issue (CSetTimeout 10000%Z) w)
  else after_loop operation w.

(** [new GoogleGenAI({ apiKey: process.env.API_KEY })]: the browser build of
    [@google/genai] refuses a missing ([undefined]) API key by throwing. *)
Definition genai_no_key_msg : string :=
  "An API Key must be set when running in a browser".

Definition new_GoogleGenAI (w : world) : option thrown :=
  match env_api_key w with
  | None => Some (ErrorObj genai_no_key_msg)
  | Some _ => None
  end.

(** The [try] block from its start to the first await: the client is
    created (line 128), then the file read is requested. *)
Definition body_start (ctx : flow_ctx) (w : world) : seg * world :=
  match new_GoogleGenAI w with
  | Some e => (SThrow e, w)
  | None => (SAwait PReadFile, issue (CReadDataURL (c_file ctx)) w)
  end.

(** The [try] block resumed at await [p] with settlement [s];
    [None] when [s] cannot settle that await ([setTimeout] never rejects). *)
Definition body_resume (ctx : flow_ctx) (p : phase) (s : settle) (w : world)
  : option (seg * world) :=
  match p, s with
  | PReadFile, Resolve (VStr result) =>
      Some (SAwait PGenerate,
            issue (CGenerateVideos (c_prompt ctx) (data_url_payload result)
                     (file_type (c_file ctx)) 1 "720p" (c_aspect ctx)) w)
  | PGenerate, Resolve (VOp op) => Some (loop_check op w)
  | PSleep op, Resolve VUnit => Some (SAwait (PPoll op), issue (CGetVideosOperation op) w)
  | PPoll _, Resolve (VOp op') => Some (loop_check op' w)
  | PFetch, Resolve (VResp r) =>
      if negb (resp_ok r)
      then Some (SThrow (ErrorObj ("Failed to fetch video: " ++ resp_statusText r)), w)
      else Some (SAwait PBlob, issue CReadBlob w)
  | PBlob, Resolve (VBlob b) =>
      let (objectUrl, w1) := createObjectURL (SrcBlob b) w in
      Some (SReturn, setGeneratedVideoUrl (Some objectUrl) w1)
  | PReadFile, Reject e | PGenerate, Reject e | PPoll _, Reject e
  | PFetch, Reject e | PBlob, Reject e => Some (SThrow e, w)
  | _, _ => None
  end.

(** [err instanceof Error ? err.message : "An unknown error occurred."] *)
Definition message_of (e : thrown) : string :=
  match e with ErrorObj m => m | NonError => unknown_msg end.

(** The [catch] clause. *)
Definition handle_error (e : thrown) (w : world) : world :=
  let errorMessage := message_of e in
  if includes errorMessage entity_not_found
  then setApiKeySelected (Some false) (setError (Some auth_msg) w)
  else setError (Some ("Failed to generate video: " ++ errorMessage)) w.

(** The [finally] clause. *)
Definition finally_clause (w : world) : world := setIsLoading false w.

(** [try { ... } catch (err) { ... } finally { ... }] around a piece of the
    body: an await suspends the flow, a throw runs [catch] then [finally],
    a normal end runs [finally]. *)
Definition try_catch_finally (r : seg * world) : phase * world :=
  match r with
  | (SAwait p, w) => (p, w)
  | (SThrow e, w) => (PDone Fulfilled, finally_clause (handle_error e w))
  | (SReturn, w) => (PDone Fulfilled, finally_clause w)
  end.

(** [handleGenerateVideo()] up to its first await. [captured_gv] is the
    [generatedVideoUrl] seen by the closure (it is not a dependency of the
    [useCallback], so it may be stale). *)
Definition handleGenerateVideo (imageFile : option file) (prompt : string)
    (aspectRatio : aspect_ratio) (captured_gv : option url) (w : world)
  : phase * world :=
  match imageFile with
  | Some f =>
      if String.eqb prompt "" then (PDone Fulfilled, setError (Some validation_msg) w)
      else
        let w1 := setError None (setIsLoading true w) in
        let w2 := match captured_gv with
                  | Some _ => setGeneratedVideoUrl None w1
                  | None => w1 end in
        try_catch_finally (body_start (mkCtx f prompt aspectRatio) w2)
  | None => (PDone Fulfilled, setError (Some validation_msg) w)
  end.

(** A suspended flow resumed by the settlement of its await. *)
Definition resume (ctx : flow_ctx) (p : phase) (s : settle) (w : world)
  : option (phase * world) :=
  option_map try_catch_finally (body_resume ctx p s w).

(** Resuming a flow with a sequence of settlements. *)
Fixpoint run_flow (ctx : flow_ctx) (p : phase) (ss : list settle) (w : world)
  : option (phase * world) :=
  match ss with
  | [] => Some (p, w)
  | s :: ss' =>
      match resume ctx p s w with
      | Some (p', w') => run_flow ctx p' ss' w'
      | None => None
      end
  end.

(** ** Loading-message rotation *)

Definition loadingMessages : list string :=
  [ "Warming up the creative engines...";
    "Gathering pixels and inspiration...";
    "This can take a few minutes, great art needs patience.";
    "Composing your video masterpiece...";
    "Finalizing the special effects..." ].

(** [Array.prototype.indexOf]: first position, or [-1]. *)
Fixpoint indexOf_from (l : list string) (x : string) (i : Z) : Z :=
  match l with
  | [] => (-1)%Z
  | y :: l' => if String.eqb y x then i else indexOf_from l' x (i + 1)%Z
  end.

Definition indexOf (l : list string) (x : string) : Z := indexOf_from l x 0.

(** [l[i]] on an array ([undefined] is [None]). *)
Definition js_get (l : list string) (i : Z) : option string :=
  if (i <? 0)%Z then None else nth_error l (Z.to_nat i).

(** The updater passed to [setLoadingMessage] every 3000 ms:
    [loadingMessages[(loadingMessages.indexOf(prev) + 1) % loadingMessages.length]]
    (JS [%] is [Z.rem]). *)
Definition nextLoadingMessage (prev : string) : option string :=
  let currentIndex := indexOf loadingMessages prev in
  let nextIndex := Z.rem (currentIndex + 1) (Z.of_nat (length loadingMessages)) in
  js_get loadingMessages nextIndex.

(** ** The component with its flows in flight *)

Record flow := mkFlow { fl_ctx : flow_ctx; fl_phase : phase }.

Record sys := mkSys { sworld : world; flows : list flow }.

Fixpoint replace_nth {A} (i : nat) (x : A) (l : list A) : list A :=
  match l, i with
  | [], _ => []
  | _ :: l', O => x :: l'
  | y :: l', S i' => y :: replace_nth i' x l'
  end.

Fixpoint remove_nth {A} (i : nat) (l : list A) : list A :=
  match l, i with
  | [], _ => []
  | _ :: l', O => l'
  | y :: l', S i' => y :: remove_nth i' l'
  end.

Definition is_done (p : phase) : bool :=
  match p with PDone _ => true | _ => false end.

(** Events: user actions, startup probe, timer ticks, and the settlement
    of the await of flow number [i]. *)
Inductive event :=
| EvKeyChecked (hasKey : bool)      (* checkKey: setApiKeySelected(hasKey) or fallback true *)
| EvKeyCheckFailed                  (* checkKey's catch *)
| EvSelectKey                       (* handleSelectKey after openSelectKey() *)
| EvImageChange (f : option file)   (* handleImageChange *)
| EvPromptChange (s : string)
| EvAspectChange (a : aspect_ratio)
| EvClickGenerate (captured_gv : option url)   (* handleGenerateVideo *)
| EvCreateAnother                   (* the "Create Another" button *)
| EvTick                            (* the 3000 ms interval while loading *)
| EvSettle (i : nat) (s : settle).

(** [handleImageChange]. *)
Definition handleImageChange (f : option file) (w : world) : world :=
  match f with
  | Some file =>
      let w1 := match generatedVideoUrl (app w) with
                | Some _ => setGeneratedVideoUrl None w
                | None => w end in
      let w2 := setImageFile (Some file) w1 in
      let (previewUrl, w3) := createObjectURL (SrcFile file) w2 in
      setImagePreview (Some previewUrl) w3
  | None => w
  end.

(** Calling [handleGenerateVideo] on the system: a flow that reaches its
    first await stays in flight. *)
Definition sys_generate (captured_gv : option url) (st : sys) : sys :=
  let a := app (sworld st) in
  let (p, w') := handleGenerateVideo (imageFile a) (prompt a) (aspectRatio a)
                   captured_gv (sworld st) in
  match imageFile a with
  | Some f => if is_done p then mkSys w' (flows st)
              else mkSys w' (flows st ++ [mkFlow (mkCtx f (prompt a) (aspectRatio a)) p])
  | None => mkSys w' (flows st)
  end.

(** One event of the system. Each event commits its state updates before
    the next one is handled, as React does when at most one continuation
    runs between two renders; with several flows in flight React may batch
    their updates instead, so the results about rendered runs are stated
    over [ui_run], where at most one flow is ever in flight. *)
Definition step (st : sys) (ev : event) : option sys :=
  let w := sworld st in
  match ev with
  | EvKeyChecked b => Some (mkSys (setApiKeySelected (Some b) w) (flows st))
  | EvKeyCheckFailed =>
      Some (mkSys (setApiKeySelected (Some true)
                    (setError (Some "Could not verify API key status. Assuming key is present.") w))
                  (flows st))
  | EvSelectKey => Some (mkSys (setApiKeySelected (Some true) w) (flows st))
  | EvImageChange f => Some (mkSys (handleImageChange f w) (flows st))
  | EvPromptChange s => Some (mkSys (setPrompt s w) (flows st))
  | EvAspectChange r => Some (mkSys (setAspectRatio r w) (flows st))
  | EvClickGenerate g => Some (sys_generate g st)
  | EvCreateAnother =>
      Some (mkSys (setImagePreview None (setImageFile None (setGeneratedVideoUrl None w)))
                  (flows st))
  | EvTick =>
      let m := match nextLoadingMessage (loadingMessage (app w)) with
               | Some m => m | None => EmptyString end in
      Some (mkSys (setLoadingMessage m w) (flows st))
  | EvSettle i s =>
      match nth_error (flows st) i with
      | Some fl =>
          match resume (fl_ctx fl) (fl_phase fl) s w with
          | Some (p', w') =>
              if is_done p' then Some (mkSys w' (remove_nth i (flows st)))
              else Some (mkSys w' (replace_nth i (mkFlow (fl_ctx fl) p') (flows st)))
          | None => None
          end
      | None => None
      end
  end.

(** What [renderContent] shows. *)
Inductive screen := ScrSpinner | ScrKey | ScrLoading | ScrVideo | ScrForm.

Definition screen_of (a : app_state) : screen :=
  match apiKeySelected a with
  | None => ScrSpinner
  | Some false => ScrKey
  | Some true =>
      if isLoading a then ScrLoading
      else match generatedVideoUrl a with Some _ => ScrVideo | None => ScrForm end
  end.

Definition screen_eqb (x y : screen) : bool :=
  match x, y with
  | ScrSpinner, ScrSpinner | ScrKey, ScrKey | ScrLoading, ScrLoading
  | ScrVideo, ScrVideo | ScrForm, ScrForm => true
  | _, _ => false
  end.

(** [isGenerateDisabled = isLoading || !imageFile || !prompt]. *)
Definition isGenerateDisabled (a : app_state) : bool :=
  isLoading a || match imageFile a with None => true | Some _ => false end
  || String.eqb (prompt a) "".

(** Whether an event can happen: user events need their control on screen
    (the file input is only rendered while there is no preview; the
    Generate button is disabled by [isGenerateDisabled]); the startup probe
    resolves while [apiKeySelected] is [null]; the interval runs while
    loading; any in-flight await may settle. *)
Definition enabled (st : sys) (ev : event) : bool :=
  let a := app (sworld st) in
  match ev with
  | EvKeyChecked _ | EvKeyCheckFailed =>
      match apiKeySelected a with None => true | Some _ => false end
  | EvSelectKey => screen_eqb (screen_of a) ScrKey
  | EvImageChange _ =>
      screen_eqb (screen_of a) ScrForm
      && match imagePreview a with None => true | Some _ => false end
  | EvPromptChange _ | EvAspectChange _ => screen_eqb (screen_of a) ScrForm
  | EvClickGenerate _ => screen_eqb (screen_of a) ScrForm && negb (isGenerateDisabled a)
  | EvCreateAnother => screen_eqb (screen_of a) ScrVideo
  | EvTick => isLoading a
  | EvSettle i _ => Nat.ltb i (length (flows st))
  end.

Definition ui_step (st : sys) (ev : event) : option sys :=
  if enabled st ev then step st ev else None.

Fixpoint ui_run (st : sys) (evs : list event) : option sys :=
  match evs with
  | [] => Some st
  | ev :: evs' => match ui_step st ev with Some st' => ui_run st' evs' | None => None end
  end.

(** The state after mounting, for a given [process.env.API_KEY]. *)
Definition initial_app : app_state :=
  mkApp None None None
    "uma pessoa com malas atravessando a ponte da amizade do brasil para o paraguai"
    AR_16_9 false "Warming up the creative engines..." None None.

Definition initial (key : option string) : sys :=
  mkSys (mkWorld initial_app [] 0 [] key) [].

(** Whether character [c] occurs in [s]. *)
Fixpoint has_char (c : ascii) (s : string) : bool :=
  match s with
  | EmptyString => false
  | String a s' => Ascii.eqb a c || has_char c s'
  end.

(** Any sequence of events, whether or not the UI offers them (this also
    covers re-entrant calls of [handleGenerateVideo]). *)
Fixpoint run_events (st : sys) (evs : list event) : option sys :=
  match evs with
  | [] => Some st
  | ev :: evs' => match step st ev with Some st' => run_events st' evs' | None => None end
  end.

(** Well-formedness of the object-URL store as the component uses it:
    every live URL was handed out by the counter, no URL is live twice, the
    URL shown in the <video> element and the one shown in the <img> preview
    are live (the preview one created from the selected file), and every
    live URL created from a video blob is the one in [generatedVideoUrl]. *)
Definition store_ok (w : world) : Prop :=
  Forall (fun e => fst e < next_url w) (live_urls w)
  /\ NoDup (map fst (live_urls w))
  /\ (forall u, generatedVideoUrl (app w) = Some u ->
        exists b, In (u, SrcBlob b) (live_urls w))
  /\ (forall p, imagePreview (app w) = Some p ->
        exists f, imageFile (app w) = Some f /\ In (p, SrcFile f) (live_urls w))
  /\ (forall u b, In (u, SrcBlob b) (live_urls w) -> generatedVideoUrl (app w) = Some u).

(** * Properties *)

(** ** Helper lemmas *)

Lemma prefix_refl : forall s, String.prefix s s = true.
Proof.
  induction s as [|a s IH]; simpl; [reflexivity|].
  destruct (ascii_dec a a) as [_|n]; [exact IH | congruence].
Qed.

Lemma includes_app_r : forall pre s, includes (pre ++ s) s = true.
Proof.
  induction pre as [|a pre IH]; intro s; simpl.
  - destruct s as [|a s]; [reflexivity|].
    change (String.prefix (String a s) (String a s) || includes s (String a s) = true).
    rewrite prefix_refl. reflexivity.
  - rewrite IH, orb_true_r. reflexivity.
Qed.

(** The flow stops once it is done. *)
Lemma resume_done : forall ctx c s w, resume ctx (PDone c) s w = None.
Proof. intros ctx c [[]|] w; reflexivity. Qed.

(** [indexOf] on the five messages: a position, or [-1] for any other string. *)
Lemma indexOf_loadingMessages : forall prev,
  (In prev loadingMessages /\ nth (Z.to_nat (indexOf loadingMessages prev)) loadingMessages ""
                               = prev /\ (0 <= indexOf loadingMessages prev < 5)%Z)
  \/ (~ In prev loadingMessages /\ indexOf loadingMessages prev = (-1)%Z).
Proof.
  intro prev. unfold indexOf, loadingMessages. cbn [indexOf_from].
  repeat match goal with
         | |- context [String.eqb ?m prev] => destruct (String.eqb_spec m prev)
         end;
    first [ subst prev; left; split; [cbn [In]; tauto | split; [reflexivity | lia]]
          | right; split; [cbn [In]; intuition congruence | reflexivity] ].
Qed.

(** ** Loading-message rotation *)

(** Claim C10: the rotation step is total and closed over the five
    messages; a listed message at position [i] is followed by the one at
    [(i + 1) mod 5], and any other string is mapped to the first message. *)
Theorem C10_loading_rotation :
  (forall prev, exists m, nextLoadingMessage prev = Some m /\ In m loadingMessages) /\
  (forall i, (i < 5)%nat ->
     nextLoadingMessage (nth i loadingMessages "")
     = Some (nth ((i + 1) mod 5) loadingMessages "")) /\
  (forall prev, ~ In prev loadingMessages ->
     nextLoadingMessage prev = Some (nth 0 loadingMessages "")).
Proof.
  split; [|split].
  - intro prev. unfold nextLoadingMessage.
    destruct (indexOf_loadingMessages prev) as [[_ [_ R]] | [_ E]].
    + destruct (indexOf loadingMessages prev) as [|p|p]; try lia.
      * eexists; split; [reflexivity | unfold loadingMessages; cbn [In]; intuition].
      * assert (Hp : (Z.pos p = 1 \/ Z.pos p = 2 \/ Z.pos p = 3 \/ Z.pos p = 4)%Z) by lia.
        destruct Hp as [Hp|[Hp|[Hp|Hp]]]; rewrite Hp;
          (eexists; split; [reflexivity | unfold loadingMessages; cbn [In]; intuition]).
    + rewrite E. eexists; split; [reflexivity | unfold loadingMessages; cbn [In]; intuition].
  - intros i Hi.
    destruct i as [|[|[|[|[|i]]]]]; try lia; reflexivity.
  - intros prev Hn. unfold nextLoadingMessage.
    destruct (indexOf_loadingMessages prev) as [[Hin _] | [_ E]];
      [contradiction | rewrite E; reflexivity].
Qed.

(** ** Validation *)

(** Claim C4: without an image or with an empty prompt, [handleGenerateVideo]
    only sets the validation error: the flow is finished at once, no
    external call is made, no object URL is created or revoked and every
    other state cell is unchanged. *)
Theorem C4_validation_no_network :
  forall (img : option file) (pr : string) ar captured_gv (w : world),
    (img = None \/ pr = "") ->
    handleGenerateVideo img pr ar captured_gv w
    = (PDone Fulfilled, setError (Some validation_msg) w)
    /\ calls (setError (Some validation_msg) w) = calls w
    /\ live_urls (setError (Some validation_msg) w) = live_urls w
    /\ next_url (setError (Some validation_msg) w) = next_url w
    /\ app (setError (Some validation_msg) w)
       = mkApp (apiKeySelected (app w)) (imageFile (app w)) (imagePreview (app w))
           (prompt (app w)) (aspectRatio (app w)) (isLoading (app w))
           (loadingMessage (app w)) (generatedVideoUrl (app w)) (Some validation_msg).
Proof.
  intros imageFile0 prompt0 ar g w H.
  repeat split; try reflexivity.
  unfold handleGenerateVideo.
  destruct H as [H|H]; subst; [reflexivity|].
  destruct imageFile0; reflexivity.
Qed.

(** ** Error handling *)


Lemma no_uri_msg_not_auth : includes no_uri_msg entity_not_found = false.
Proof. reflexivity. Qed.

(** Claim C6: a job reported done without a (non-empty) video URI ends the
    flow with "Failed to generate video: Video generation completed, but
    no video URI was found.": no fetch and no further poll is issued, no
    object URL is created, the result cell is untouched and the flow
    accepts no further settlement. *)
Theorem C6_missing_result :
  forall ctx p op w,
    (p = PGenerate \/ exists op0, p = PPoll op0) ->
    op_done op = true -> truthy (op_uri op) = false ->
    exists w', resume ctx p (Resolve (VOp op)) w = Some (PDone Fulfilled, w')
      /\ error (app w') = Some ("Failed to generate video: " ++ no_uri_msg)
      /\ generatedVideoUrl (app w') = generatedVideoUrl (app w)
      /\ calls w' = calls w /\ live_urls w' = live_urls w
      /\ isLoading (app w') = false
      /\ (forall s w'', resume ctx (PDone Fulfilled) s w'' = None).
Proof.
  intros ctx p op w Hp Hd Hu.
  assert (E : resume ctx p (Resolve (VOp op)) w
              = Some (PDone Fulfilled, finally_clause (handle_error (ErrorObj no_uri_msg) w))).
  { destruct Hp as [-> | [op0 ->]]; unfold resume; cbn [body_resume];
      unfold loop_check, after_loop; rewrite Hd, Hu; reflexivity. }
  rewrite E. eexists; split; [reflexivity|].
  unfold handle_error, message_of. rewrite no_uri_msg_not_auth.
  repeat split; try reflexivity.
Qed.

(** The prefix added by the fetch check cannot contribute to a match of
    "Requested entity was not found". *)
Lemma fetch_msg_auth : forall st,
  includes ("Failed to fetch video: " ++ st) entity_not_found = includes st entity_not_found.
Proof. intro st. reflexivity. Qed.

Lemma auth_msg_not_auth : includes auth_msg entity_not_found = false.
Proof. reflexivity. Qed.

(** A sample flow: the captured image and prompt, and a world with an API key. *)
Definition sample_file : file := mkFile "photo.jpg" "image/jpeg".
Definition sample_ctx : flow_ctx := mkCtx sample_file "a gentle breeze" AR_16_9.
Definition sample_world : world :=
  mkWorld (mkApp (Some true) (Some sample_file) (Some 0) "a gentle breeze" AR_16_9
             true "Warming up the creative engines..." None None)
    [(0, SrcFile sample_file)] 1 [] (Some "key").

(** Claim C7 fails: a non-OK response whose status text contains
    "Requested entity was not found" is classified as an invalid key: the
    error shown is the invalid-key message, which does not contain the
    status text, and [apiKeySelected] becomes [false]. *)
Lemma C7_counterexample :
  exists w', resume sample_ctx PFetch
               (Resolve (VResp (mkResp false entity_not_found))) sample_world
             = Some (PDone Fulfilled, w')
    /\ error (app w') = Some auth_msg
    /\ includes auth_msg entity_not_found = false
    /\ apiKeySelected (app w') = Some false.
Proof. eexists; split; [reflexivity|]. repeat split; reflexivity. Qed.

(** Claim C7 (amended): a non-OK response ends the flow without reaching
    the result: no object URL is created and the result cell is unchanged.
    If the status text does not contain "Requested entity was not found",
    the error is "Failed to generate video: Failed to fetch video: <statusText>",
    which contains the status text; otherwise the invalid-key path of the
    catch clause is taken. *)
Theorem C7_fetch_failure :
  forall ctx r w, resp_ok r = false ->
  exists w', resume ctx PFetch (Resolve (VResp r)) w = Some (PDone Fulfilled, w')
    /\ generatedVideoUrl (app w') = generatedVideoUrl (app w)
    /\ live_urls w' = live_urls w /\ next_url w' = next_url w
    /\ isLoading (app w') = false
    /\ if includes (resp_statusText r) entity_not_found
       then error (app w') = Some auth_msg /\ apiKeySelected (app w') = Some false
       else error (app w')
            = Some ("Failed to generate video: Failed to fetch video: " ++ resp_statusText r)
            /\ includes ("Failed to generate video: Failed to fetch video: " ++ resp_statusText r)
                 (resp_statusText r) = true.
Proof.
  intros ctx r w Hok.
  unfold resume. cbn [body_resume]. rewrite Hok. cbn [negb option_map try_catch_finally].
  eexists; split; [reflexivity|].
  unfold handle_error, message_of. rewrite fetch_msg_auth.
  destruct (includes (resp_statusText r) entity_not_found);
    repeat split; try reflexivity.
  apply includes_app_r.
Qed.

(** ** The polling loop *)

(** The settlements of [n] loop iterations: the 10 s timer fires, then the
    poll answers with the next operation. *)
Fixpoint poll_settles (ops : list operation) : list settle :=
  match ops with
  | [] => []
  | op :: ops' => Resolve VUnit :: Resolve (VOp op) :: poll_settles ops'
  end.

(** The calls those iterations issue: poll the latest operation, then
    start a new 10 s timer. *)
Fixpoint poll_calls (prev : operation) (ops : list operation) : list call :=
  match ops with
  | [] => []
  | op :: ops' => CGetVideosOperation prev :: CSetTimeout 10000 :: poll_calls op ops'
  end.

Fixpoint latest (prev : operation) (ops : list operation) : operation :=
  match ops with [] => prev | op :: ops' => latest op ops' end.

Lemma poll_iterations : forall ctx ops op0 w,
  Forall (fun op => op_done op = false) ops ->
  run_flow ctx (PSleep op0) (poll_settles ops) w
  = Some (PSleep (latest op0 ops),
          mkWorld (app w) (live_urls w) (next_url w)
            (calls w ++ poll_calls op0 ops) (env_api_key w)).
Proof.
  intros ctx ops. induction ops as [|op ops IH]; intros op0 w Hall.
  - destruct w; cbn. rewrite app_nil_r. reflexivity.
  - inversion Hall as [|? ? Hd Hrest]; subst.
    cbn [poll_settles run_flow]. unfold resume at 1. cbn [body_resume option_map try_catch_finally].
    cbn [run_flow]. unfold resume at 1. cbn [body_resume option_map].
    unfold loop_check. rewrite Hd. cbn [negb try_catch_finally].
    rewrite IH by exact Hrest. cbn. rewrite <- !app_assoc. reflexivity.
Qed.

(** Claim C8: after a submission whose operation is not done, every
    iteration waits 10000 ms and then polls with the operation returned by
    the previous call; for any number of not-done answers the flow is still
    polling, with no iteration cap and no other state change. *)
Theorem C8_polling :
  forall ctx op0 ops w,
    op_done op0 = false -> Forall (fun op => op_done op = false) ops ->
    run_flow ctx PGenerate (Resolve (VOp op0) :: poll_settles ops) w
    = Some (PSleep (latest op0 ops),
            mkWorld (app w) (live_urls w) (next_url w)
              (calls w ++ CSetTimeout 10000 :: poll_calls op0 ops) (env_api_key w)).
Proof.
  intros ctx op0 ops w Hd0 Hall.
  cbn [run_flow]. unfold resume at 1. cbn [body_resume option_map].
  unfold loop_check. rewrite Hd0. cbn [negb try_catch_finally].
  rewrite poll_iterations by exact Hall. cbn. rewrite <- app_assoc. reflexivity.
Qed.

(** ** Successful completion *)

(** Claim C5: a done operation carrying a non-empty video URI (with the API
    key set) is fetched once; on an OK response and its blob, the flow ends
    having created exactly one object URL from the blob, stored it in
    [generatedVideoUrl] (revoking the URL that cell held before), left the
    preview cell and the error untouched, cleared [isLoading], and accepts
    no further settlement. *)
Theorem C5_ready_once :
  forall ctx p op w u k resp b,
    (p = PGenerate \/ exists op0, p = PPoll op0) ->
    op_done op = true -> op_uri op = Some u -> u <> "" ->
    env_api_key w = Some k -> k <> "" -> resp_ok resp = true ->
    (forall old, generatedVideoUrl (app w) = Some old -> old < next_url w) ->
    exists w',
      run_flow ctx p [Resolve (VOp op); Resolve (VResp resp); Resolve (VBlob b)] w
      = Some (PDone Fulfilled, w')
      /\ calls w' = (calls w ++ [CFetch (u ++ "&key=" ++ k); CReadBlob])%list
      /\ generatedVideoUrl (app w') = Some (next_url w)
      /\ next_url w' = S (next_url w)
      /\ live_urls w' = (next_url w, SrcBlob b)
                        :: match generatedVideoUrl (app w) with
                           | Some old => filter (fun e => negb (Nat.eqb (fst e) old)) (live_urls w)
                           | None => live_urls w
                           end
      /\ imagePreview (app w') = imagePreview (app w)
      /\ error (app w') = error (app w)
      /\ isLoading (app w') = false
      /\ (forall s w'', resume ctx (PDone Fulfilled) s w'' = None).
Proof.
  intros ctx p op w u k resp b Hp Hd Hu Hu' Hk Hk' Hok Hfresh.
  destruct u as [|ua u]; [congruence|]. destruct k as [|ka k]; [congruence|].
  assert (E1 : resume ctx p (Resolve (VOp op)) w
               = Some (PFetch, issue (CFetch (String ua u ++ "&key=" ++ String ka k)) w)).
  { destruct Hp as [-> | [op0 ->]]; unfold resume; cbn [body_resume];
      unfold loop_check, after_loop; rewrite Hd, Hu, Hk; reflexivity. }
  cbn [run_flow]. rewrite E1.
  unfold resume at 1. cbn [body_resume]. rewrite Hok. cbn [negb option_map try_catch_finally].
  unfold resume. cbn [body_resume option_map try_catch_finally].
  eexists; split; [reflexivity|].
  destruct w as [[ak imf ip pr ar il lm gv er] live n cs key]; cbn in Hfresh, Hk |- *.
  unfold setGeneratedVideoUrl. destruct gv as [old|]; cbn.
  - specialize (Hfresh old eq_refl).
    rewrite (proj2 (Nat.eqb_neq old n)) by lia. cbn.
    rewrite (proj2 (Nat.eqb_neq n old)) by lia. cbn.
    rewrite <- app_assoc. repeat split; reflexivity.
  - rewrite <- app_assoc. repeat split; reflexivity.
Qed.

(** ** The loading flag and the try/catch/finally structure *)

Lemma setGeneratedVideoUrl_isLoading : forall v w,
  isLoading (app (setGeneratedVideoUrl v w)) = isLoading (app w).
Proof.
  intros v w. unfold setGeneratedVideoUrl.
  destruct (opt_url_eqb (generatedVideoUrl (app w)) v); [reflexivity|].
  destruct (generatedVideoUrl (app w)); reflexivity.
Qed.

(** What a piece of the [try] block may do: it never touches [isLoading]
    and never suspends on a finished phase. *)
Definition seg_ok (r : seg * world) (w : world) : Prop :=
  isLoading (app (snd r)) = isLoading (app w)
  /\ forall q, fst r = SAwait q -> is_done q = false.

Lemma after_loop_ok : forall op w, seg_ok (after_loop op w) w.
Proof.
  intros op w. unfold after_loop.
  destruct (op_uri op) as [[|? ?]|], (env_api_key w) as [[|? ?]|];
    split; cbn; try reflexivity; intros q Hq; inversion Hq; reflexivity.
Qed.

Lemma loop_check_ok : forall op w, seg_ok (loop_check op w) w.
Proof.
  intros op w. unfold loop_check.
  destruct (op_done op); cbn; [apply after_loop_ok|].
  split; [reflexivity|]. intros q Hq; inversion Hq; reflexivity.
Qed.

Lemma body_resume_ok : forall ctx p s w r,
  body_resume ctx p s w = Some r -> seg_ok r w.
Proof.
  intros ctx p s w r H.
  destruct p; destruct s as [[]|]; cbn in H; try discriminate;
    try (injection H as <-);
    try apply loop_check_ok;
    try (split; [reflexivity | intros q Hq; inversion Hq; reflexivity]).
  - destruct (resp_ok r0); cbn in H; injection H as <-;
      (split; [reflexivity | intros q Hq; inversion Hq; reflexivity]).
  - split; [cbn; rewrite setGeneratedVideoUrl_isLoading; reflexivity | intros q Hq; inversion Hq].
Qed.

Lemma try_catch_finally_isLoading : forall r w,
  seg_ok r w ->
  isLoading (app (snd (try_catch_finally r)))
  = if is_done (fst (try_catch_finally r)) then false else isLoading (app w).
Proof.
  intros [[q|e|] w1] w [HL HA]; cbn in HL |- *.
  - rewrite (HA q eq_refl). exact HL.
  - unfold finally_clause. reflexivity.
  - reflexivity.
Qed.

Lemma resume_isLoading : forall ctx p s w p' w',
  resume ctx p s w = Some (p', w') ->
  isLoading (app w') = if is_done p' then false else isLoading (app w).
Proof.
  intros ctx p s w p' w' H. unfold resume in H.
  destruct (body_resume ctx p s w) as [r|] eqn:E; cbn in H; [|discriminate].
  injection H as H.
  pose proof (try_catch_finally_isLoading r w (body_resume_ok ctx p s w r E)) as T.
  rewrite H in T. exact T.
Qed.

Lemma try_catch_finally_fulfilled : forall r e,
  fst (try_catch_finally r) <> PDone (Rejected e) \/ exists q, r = (SAwait q, snd r).
Proof.
  intros [[q|e'|] w1] e; cbn; [right; exists q; reflexivity | left; discriminate | left; discriminate].
Qed.

Lemma setGeneratedVideoUrl_calls_env : forall v w,
  calls (setGeneratedVideoUrl v w) = calls w
  /\ env_api_key (setGeneratedVideoUrl v w) = env_api_key w.
Proof.
  intros v w. unfold setGeneratedVideoUrl.
  destruct (opt_url_eqb (generatedVideoUrl (app w)) v); [split; reflexivity|].
  destruct (generatedVideoUrl (app w)); split; reflexivity.
Qed.

Lemma genai_no_key_msg_not_auth : includes genai_no_key_msg entity_not_found = false.
Proof. reflexivity. Qed.

(** Claim C9: no failure escapes [handleGenerateVideo]. Every resumption
    ends either suspended or with the promise fulfilled, never rejected;
    a finished flow has cleared [isLoading]; a failure raised by the [try]
    block leaves an error message; a rejection at any await that can reject
    is caught. The validation exit is fulfilled and changes only [error]
    (it never set [isLoading]); a start that fails at once (creating the
    client throws when the API key is missing) is caught, clears
    [isLoading] and leaves an error message; every other start leaves the
    flow in flight with [isLoading] set. *)
Theorem C9_no_escape :
  (forall ctx p s w p' w',
     resume ctx p s w = Some (p', w') ->
     (forall e, p' <> PDone (Rejected e))
     /\ (is_done p' = true -> isLoading (app w') = false)
     /\ (forall e w1, body_resume ctx p s w = Some (SThrow e, w1) ->
           exists m, error (app w') = Some m))
  /\ (forall ctx p e w,
        match p with PSleep _ | PDone _ => False | _ => True end ->
        exists w', resume ctx p (Reject e) w = Some (PDone Fulfilled, w')
          /\ isLoading (app w') = false /\ exists m, error (app w') = Some m)
  /\ (forall img pr ar g w p' w',
        handleGenerateVideo img pr ar g w = (p', w') ->
        (forall e, p' <> PDone (Rejected e))
        /\ (is_done p' = true ->
              w' = setError (Some validation_msg) w
              \/ (isLoading (app w') = false /\ exists m, error (app w') = Some m))
        /\ (is_done p' = false -> isLoading (app w') = true))
  /\ (forall f pr ar g w, pr <> "" -> env_api_key w = None ->
        exists w', handleGenerateVideo (Some f) pr ar g w = (PDone Fulfilled, w')
          /\ isLoading (app w') = false
          /\ error (app w') = Some ("Failed to generate video: " ++ genai_no_key_msg)
          /\ calls w' = calls w).
Proof.
  split; [|split; [|split]].
  - intros ctx p s w p' w' H. split; [|split].
    + intros e ->. unfold resume in H.
      destruct (body_resume ctx p s w) as [r|] eqn:E; cbn in H; [|discriminate].
      destruct r as [[q|e'|] w1]; cbn in H; injection H as H1 H2; try discriminate.
      subst q. destruct (body_resume_ok ctx p s w _ E) as [_ HA].
      specialize (HA _ eq_refl). discriminate.
    + intro Hd. rewrite (resume_isLoading ctx p s w p' w' H), Hd. reflexivity.
    + intros e w1 E. unfold resume in H. rewrite E in H. cbn in H. injection H as _ <-.
      unfold finally_clause, handle_error.
      destruct (includes (message_of e) entity_not_found); eexists; reflexivity.
  - intros ctx p e w Hp.
    assert (E : body_resume ctx p (Reject e) w = Some (SThrow e, w))
      by (destruct p; try contradiction; reflexivity).
    unfold resume. rewrite E. cbn. eexists; split; [reflexivity|]. split; [reflexivity|].
    unfold handle_error.
    destruct (includes (message_of e) entity_not_found); eexists; reflexivity.
  - intros img pr ar g w p' w' H. unfold handleGenerateVideo in H.
    destruct img as [f|]; [destruct (String.eqb pr "")|]; cbv beta iota zeta in H;
      try (injection H as <- <-;
           split; [intros e; discriminate|];
           split; [intros _; left; reflexivity | discriminate]).
    unfold body_start, new_GoogleGenAI in H.
    destruct g; [rewrite (proj2 (setGeneratedVideoUrl_calls_env _ _)) in H|];
      cbn [env_api_key setError setIsLoading with_app] in H;
      destruct (env_api_key w) as [k|]; cbn [try_catch_finally] in H;
      injection H as <- <-;
      (split; [intros e; discriminate|]);
      first [ split; [discriminate | intros _; cbn;
                try rewrite setGeneratedVideoUrl_isLoading; reflexivity]
            | split; [intros _; right; split; [reflexivity|];
                      unfold handle_error;
                      destruct (includes (message_of (ErrorObj genai_no_key_msg)) entity_not_found);
                      eexists; reflexivity
                     | discriminate] ].
  - intros f pr ar g w Hpr Hk. unfold handleGenerateVideo.
    rewrite (proj2 (String.eqb_neq pr "") Hpr). cbv beta iota zeta.
    unfold body_start, new_GoogleGenAI.
    assert (Hc : calls (match g with
                        | Some _ => setGeneratedVideoUrl None (setError None (setIsLoading true w))
                        | None => setError None (setIsLoading true w) end) = calls w
                 /\ env_api_key (match g with
                        | Some _ => setGeneratedVideoUrl None (setError None (setIsLoading true w))
                        | None => setError None (setIsLoading true w) end) = None)
      by (destruct g;
          [ destruct (setGeneratedVideoUrl_calls_env None (setError None (setIsLoading true w)))
              as [C1 C2]; split; [exact C1 | rewrite C2; exact Hk]
          | split; [reflexivity | exact Hk] ]).
    destruct Hc as [Hc He]. rewrite He. cbn [try_catch_finally].
    eexists; split; [reflexivity|].
    unfold finally_clause, handle_error, message_of.
    rewrite genai_no_key_msg_not_auth.
    split; [reflexivity | split; [reflexivity | exact Hc]].
Qed.

(** ** Flows in flight *)

Lemma length_replace_nth : forall A i (x : A) l, length (replace_nth i x l) = length l.
Proof. intros A i x l. revert i; induction l as [|y l IH]; intros [|i]; cbn; auto. Qed.

Lemma length_remove_nth : forall A i (l : list A),
  i < length l -> length (remove_nth i l) = pred (length l).
Proof.
  intros A i l. revert i; induction l as [|y l IH]; intros [|i] Hi; cbn in *; try lia.
  rewrite IH by lia. destruct l; cbn in *; lia.
Qed.

Lemma handleImageChange_isLoading : forall f w,
  isLoading (app (handleImageChange f w)) = isLoading (app w).
Proof.
  intros [f|] w; cbn; [|reflexivity].
  destruct (generatedVideoUrl (app w)); cbn; [|reflexivity].
  apply setGeneratedVideoUrl_isLoading.
Qed.

Lemma handleGenerateVideo_isLoading : forall img pr ar g w p w',
  isLoading (app w) = false -> handleGenerateVideo img pr ar g w = (p, w') ->
  isLoading (app w') = negb (is_done p).
Proof.
  intros img pr ar g w p w' NL H. unfold handleGenerateVideo in H.
  destruct img as [f|]; [destruct (String.eqb pr "")|]; cbv beta iota zeta in H;
    try (injection H as <- <-; exact NL).
  unfold body_start, new_GoogleGenAI in H.
  destruct g; [rewrite (proj2 (setGeneratedVideoUrl_calls_env _ _)) in H|];
    cbn [env_api_key setError setIsLoading with_app] in H;
    destruct (env_api_key w); cbn [try_catch_finally] in H; injection H as <- <-; cbn;
    try rewrite setGeneratedVideoUrl_isLoading; reflexivity.
Qed.

(** The bookkeeping of the system: one flow in flight exactly while loading. *)
Definition one_flow_iff_loading (st : sys) : Prop :=
  length (flows st) = if isLoading (app (sworld st)) then 1 else 0.

Lemma enabled_click_not_loading : forall st g,
  enabled st (EvClickGenerate g) = true -> isLoading (app (sworld st)) = false.
Proof.
  intros st g H. cbn in H. unfold screen_of in H.
  destruct (apiKeySelected (app (sworld st))) as [[]|]; cbn in H; try discriminate.
  destruct (isLoading (app (sworld st))); [discriminate | reflexivity].
Qed.

Lemma ui_step_invariant : forall st ev st',
  one_flow_iff_loading st -> ui_step st ev = Some st' -> one_flow_iff_loading st'.
Proof.
  unfold one_flow_iff_loading, ui_step.
  intros [w fls] ev st' Inv H. cbn in Inv.
  destruct (enabled (mkSys w fls) ev) eqn:En; [|discriminate].
  destruct ev; cbn in H |- *;
    try (injection H as <-; cbn; exact Inv).
  - injection H as <-. cbn. rewrite handleImageChange_isLoading. exact Inv.
  - (* EvClickGenerate *)
    pose proof (enabled_click_not_loading _ _ En) as NL. cbn in NL.
    rewrite NL in Inv. injection H as <-. unfold sys_generate. cbn.
    destruct (handleGenerateVideo (imageFile (app w)) (prompt (app w)) (aspectRatio (app w))
                captured_gv w) as [p w'] eqn:E.
    pose proof (handleGenerateVideo_isLoading _ _ _ _ _ _ _ NL E) as L.
    destruct (imageFile (app w)).
    + destruct (is_done p) eqn:D; cbn; rewrite L; cbn;
        [exact Inv | rewrite length_app, Inv; reflexivity].
    + (* without an image the guard returns at once *)
      cbn in E. injection E as <- <-. cbn. rewrite NL. exact Inv.
  - injection H as <-. cbn. rewrite setGeneratedVideoUrl_isLoading. exact Inv.
  - (* EvSettle *)
    destruct (nth_error fls i) as [fl|] eqn:N; [|discriminate].
    destruct (resume (fl_ctx fl) (fl_phase fl) s w) as [[p' w']|] eqn:R; [|discriminate].
    pose proof (resume_isLoading _ _ _ _ _ _ R) as L.
    assert (Hi : i < length fls) by (apply nth_error_Some; congruence).
    destruct (is_done p'); injection H as <-; cbn; rewrite L.
    + rewrite length_remove_nth by exact Hi.
      destruct (isLoading (app w)); cbn in Inv; rewrite Inv in *; [reflexivity | lia].
    + rewrite length_replace_nth. exact Inv.
Qed.

Lemma ui_run_invariant : forall evs st st',
  one_flow_iff_loading st -> ui_run st evs = Some st' -> one_flow_iff_loading st'.
Proof.
  induction evs as [|ev evs IH]; intros st st' Inv H; cbn in H.
  - injection H as <-. exact Inv.
  - destruct (ui_step st ev) as [st1|] eqn:S1; [|discriminate].
    exact (IH st1 st' (ui_step_invariant st ev st1 Inv S1) H).
Qed.

(** ** Re-entrant generation *)

(** A run that reaches the polling loop: the image is chosen, Generate is
    clicked, the file is read and the submission answers "not done". *)
Definition pending_op : operation := mkOp false None.

Definition to_polling : list event :=
  [ EvKeyChecked true; EvImageChange (Some sample_file); EvClickGenerate None;
    EvSettle 0 (Resolve (VStr "data:image/jpeg;base64,AAAA"));
    EvSettle 0 (Resolve (VOp pending_op)) ].

(** Claim C2 fails: [handleGenerateVideo] has no guard of its own. Called
    while a flow is polling, it starts a second flow next to the first one,
    which is neither rejected nor cancelled and keeps running. *)
Lemma C2_counterexample :
  exists st, ui_run (initial (Some "key")) to_polling = Some st
    /\ isLoading (app (sworld st)) = true
    /\ map fl_phase (flows st) = [PSleep pending_op]
    /\ map fl_phase (flows (sys_generate None st)) = [PSleep pending_op; PReadFile]
    /\ option_map (fun st' => map fl_phase (flows st'))
         (step (sys_generate None st) (EvSettle 0 (Resolve VUnit)))
       = Some [PPoll pending_op; PReadFile].
Proof. eexists; split; [reflexivity|]. repeat split; reflexivity. Qed.

(** Claim C2 (amended): the only guard is the presentation layer: the
    Generate button is rendered and enabled only while not loading. In
    every run driven through the rendered controls there is at most one
    flow in flight, and whenever Generate can be clicked none is. *)
Theorem C2_single_flow_under_ui :
  forall key evs st,
    ui_run (initial key) evs = Some st ->
    length (flows st) <= 1
    /\ (forall g, enabled st (EvClickGenerate g) = true -> flows st = []).
Proof.
  intros key evs st H.
  pose proof (ui_run_invariant evs (initial key) st eq_refl H) as Inv.
  unfold one_flow_iff_loading in Inv. split.
  - destruct (isLoading (app (sworld st))); lia.
  - intros g Hg. rewrite (enabled_click_not_loading st g Hg) in Inv.
    destruct (flows st); [reflexivity | discriminate].
Qed.

(** ** Object-URL slots *)

Definition second_file : file := mkFile "second.png" "image/png".

(** Object URLs created from a [File] (the preview slot). *)
Definition live_previews (w : world) : list (url * obj_source) :=
  filter (fun e => match snd e with SrcFile _ => true | SrcBlob _ => false end) (live_urls w).

(** Choose an image, generate a video to completion, press "Create
    Another" and choose a second image. *)
Definition preview_twice : list event :=
  to_polling ++
  [ EvSettle 0 (Resolve VUnit);
    EvSettle 0 (Resolve (VOp (mkOp true (Some "https://videos.example/v1?alt=media"))));
    EvSettle 0 (Resolve (VResp (mkResp true "OK")));
    EvSettle 0 (Resolve (VBlob (mkBlob 1)));
    EvCreateAnother;
    EvImageChange (Some second_file) ].

(** Claim C1: along [preview_twice] the video URL (1) is revoked when the
    result cell is cleared, but the first preview URL (0) is never revoked:
    two live preview URLs coexist once the second image is chosen. *)
Theorem C1_preview_leak :
  option_map (fun st => (live_urls (sworld st), imagePreview (app (sworld st))))
    (ui_run (initial (Some "key")) preview_twice)
  = Some ([(2, SrcFile second_file); (0, SrcFile sample_file)], Some 2)
  /\ option_map (fun st => length (live_previews (sworld st)))
       (ui_run (initial (Some "key")) preview_twice) = Some 2.
Proof. split; reflexivity. Qed.

(** ** Witnesses *)

Lemma C10_loading_rotation_witness :
  nextLoadingMessage (nth 4 loadingMessages "") = Some (nth 0 loadingMessages "")
  /\ nextLoadingMessage "" = Some (nth 0 loadingMessages "").
Proof.
  split.
  - exact (proj1 (proj2 C10_loading_rotation) 4 ltac:(lia)).
  - apply (proj2 (proj2 C10_loading_rotation)). unfold loadingMessages; cbn [In].
    intuition discriminate.
Defined.

Lemma C4_validation_no_network_witness :
  handleGenerateVideo (Some sample_file) "" AR_16_9 None sample_world
  = (PDone Fulfilled, setError (Some validation_msg) sample_world).
Proof.
  exact (proj1 (C4_validation_no_network (Some sample_file) "" AR_16_9 None sample_world
                  (or_intror eq_refl))).
Defined.


Lemma C6_missing_result_witness :
  exists w', resume sample_ctx PGenerate (Resolve (VOp (mkOp true None))) sample_world
             = Some (PDone Fulfilled, w')
    /\ error (app w') = Some ("Failed to generate video: " ++ no_uri_msg).
Proof.
  destruct (C6_missing_result sample_ctx PGenerate (mkOp true None) sample_world
              (or_introl eq_refl) eq_refl eq_refl) as [w' [H1 [H2 _]]].
  exists w'. split; [exact H1 | exact H2].
Defined.

Lemma C7_fetch_failure_witness :
  exists w', resume sample_ctx PFetch (Resolve (VResp (mkResp false "Forbidden"))) sample_world
             = Some (PDone Fulfilled, w')
    /\ error (app w') = Some "Failed to generate video: Failed to fetch video: Forbidden".
Proof.
  destruct (C7_fetch_failure sample_ctx (mkResp false "Forbidden") sample_world eq_refl)
    as [w' [H1 [_ [_ [_ [_ [H2 _]]]]]]].
  exists w'. split; [exact H1 | exact H2].
Defined.

Lemma C8_polling_witness :
  run_flow sample_ctx PGenerate
    (Resolve (VOp pending_op) :: poll_settles [pending_op; pending_op]) sample_world
  = Some (PSleep pending_op,
          mkWorld (app sample_world) (live_urls sample_world) (next_url sample_world)
            (calls sample_world ++ CSetTimeout 10000 :: poll_calls pending_op [pending_op; pending_op])
            (env_api_key sample_world)).
Proof.
  exact (C8_polling sample_ctx pending_op [pending_op; pending_op] sample_world eq_refl
           (Forall_cons pending_op (eq_refl : op_done pending_op = false)
              (Forall_cons pending_op (eq_refl : op_done pending_op = false) (Forall_nil _)))).
Defined.

Lemma C5_ready_once_witness :
  exists w',
    run_flow sample_ctx PGenerate
      [Resolve (VOp (mkOp true (Some "https://videos.example/v1?alt=media")));
       Resolve (VResp (mkResp true "OK")); Resolve (VBlob (mkBlob 5))] sample_world
    = Some (PDone Fulfilled, w')
    /\ generatedVideoUrl (app w') = Some 1.
Proof.
  destruct (C5_ready_once sample_ctx PGenerate
              (mkOp true (Some "https://videos.example/v1?alt=media")) sample_world
              "https://videos.example/v1?alt=media" "key" (mkResp true "OK") (mkBlob 5)
              (or_introl eq_refl) eq_refl eq_refl ltac:(discriminate) eq_refl
              ltac:(discriminate) eq_refl ltac:(intros old Hold; discriminate Hold))
    as [w' [H1 [_ [H2 _]]]].
  exists w'. split; [exact H1 | exact H2].
Defined.

Lemma C9_no_escape_witness :
  isLoading (app (finally_clause (handle_error NonError sample_world))) = false
  /\ (exists w', resume sample_ctx PBlob (Reject NonError) sample_world = Some (PDone Fulfilled, w'))
  /\ (exists w', handleGenerateVideo (Some sample_file) "a gentle breeze" AR_16_9 None
                   (mkWorld (app sample_world) (live_urls sample_world) 1 [] None)
                 = (PDone Fulfilled, w') /\ isLoading (app w') = false).
Proof.
  split; [|split].
  - exact (proj1 (proj2 (proj1 C9_no_escape sample_ctx PBlob (Reject NonError) sample_world
                           (PDone Fulfilled) (finally_clause (handle_error NonError sample_world))
                           eq_refl)) eq_refl).
  - destruct (proj1 (proj2 C9_no_escape) sample_ctx PBlob NonError sample_world I) as [w' [H _]].
    exists w'. exact H.
  - destruct (proj2 (proj2 (proj2 C9_no_escape)) sample_file "a gentle breeze" AR_16_9 None
                (mkWorld (app sample_world) (live_urls sample_world) 1 [] None)
                ltac:(discriminate) eq_refl) as [w' [H1 [H2 _]]].
    exists w'. split; [exact H1 | exact H2].
Defined.

Lemma C2_single_flow_under_ui_witness :
  exists st, ui_run (initial (Some "key")) to_polling = Some st /\ length (flows st) <= 1.
Proof.
  destruct (ui_run (initial (Some "key")) to_polling) as [st|] eqn:E; [|discriminate].
  exists st. split; [reflexivity|].
  exact (proj1 (C2_single_flow_under_ui (Some "key") to_polling st E)).
Defined.

(** * Further properties of the component *)

(** ** Reading the image ([fileToBase64]) *)

Lemma split_on_no_char : forall c s, has_char c s = false -> split_on c s = [s].
Proof.
  intros c s. induction s as [|a s IH]; intro H; cbn in H |- *; [reflexivity|].
  apply orb_false_iff in H as [Ha Hs]. rewrite Ha, IH by exact Hs. reflexivity.
Qed.

Lemma split_on_app : forall c s1 s2, has_char c s1 = false ->
  split_on c (s1 ++ String c s2) = s1 :: split_on c s2.
Proof.
  intros c s1 s2. induction s1 as [|a s1 IH]; intro H; cbn in H |- *.
  - rewrite Ascii.eqb_refl. reflexivity.
  - apply orb_false_iff in H as [Ha Hs]. rewrite Ha, IH by exact Hs. reflexivity.
Qed.

Lemma string_app_assoc : forall s1 s2 s3, (s1 ++ s2) ++ s3 = s1 ++ (s2 ++ s3).
Proof. induction s1 as [|a s1 IH]; intros; cbn; [reflexivity | rewrite IH; reflexivity]. Qed.

Lemma has_char_app : forall c s1 s2,
  has_char c (s1 ++ s2) = has_char c s1 || has_char c s2.
Proof.
  induction s1 as [|a s1 IH]; intros; cbn; [reflexivity|]. rewrite IH, orb_assoc. reflexivity.
Qed.

(** [fileToBase64] strips the data-URL header: for a data URL
    "data:<mime>;base64,<payload>" whose MIME type and payload contain no
    comma, the submission made once the read resolves carries exactly
    [payload] as [imageBytes], with the captured prompt, the file's MIME
    type, one video at 720p and the captured aspect ratio. A read result
    without any comma is sent as [undefined] image bytes. *)
Theorem fileToBase64_payload_submitted :
  forall ctx mime payload w,
    has_char "," mime = false -> has_char "," payload = false ->
    body_resume ctx PReadFile (Resolve (VStr ("data:" ++ mime ++ ";base64," ++ payload))) w
    = Some (SAwait PGenerate,
            issue (CGenerateVideos (c_prompt ctx) (Some payload) (file_type (c_file ctx))
                     1 "720p" (c_aspect ctx)) w)
    /\ (forall result, has_char "," result = false ->
          body_resume ctx PReadFile (Resolve (VStr result)) w
          = Some (SAwait PGenerate,
                  issue (CGenerateVideos (c_prompt ctx) None (file_type (c_file ctx))
                           1 "720p" (c_aspect ctx)) w)).
Proof.
  intros ctx mime payload w Hm Hp. split.
  - cbn [body_resume]. unfold data_url_payload.
    replace ("data:" ++ mime ++ ";base64," ++ payload)
      with (("data:" ++ mime ++ ";base64") ++ String "," payload)
      by (rewrite !string_app_assoc; reflexivity).
    rewrite split_on_app, split_on_no_char by
      (try exact Hp; rewrite !has_char_app, Hm; reflexivity).
    reflexivity.
  - intros result Hr. cbn [body_resume]. unfold data_url_payload.
    rewrite split_on_no_char by exact Hr. reflexivity.
Qed.

Lemma fileToBase64_payload_submitted_witness :
  body_resume sample_ctx PReadFile (Resolve (VStr "data:image/jpeg;base64,QUJD")) sample_world
  = Some (SAwait PGenerate,
          issue (CGenerateVideos "a gentle breeze" (Some "QUJD") "image/jpeg" 1 "720p" AR_16_9)
            sample_world).
Proof.
  exact (proj1 (fileToBase64_payload_submitted sample_ctx "image/jpeg" "QUJD" sample_world
                  eq_refl eq_refl)).
Defined.

(** ** The object-URL store *)

Lemma nodup_fst_unique : forall (l : list (url * obj_source)) k x y,
  NoDup (map fst l) -> In (k, x) l -> In (k, y) l -> x = y.
Proof.
  induction l as [|[k' z] l IH]; intros k x y Hnd Hx Hy; [destruct Hx|].
  cbn in Hnd. inversion Hnd as [|? ? Hnotin Hnd']; subst.
  destruct Hx as [Ex|Hx], Hy as [Ey|Hy].
  - congruence.
  - injection Ex as -> ->. exfalso. apply Hnotin. apply (in_map fst _ (k, y)). exact Hy.
  - injection Ey as -> ->. exfalso. apply Hnotin. apply (in_map fst _ (k, x)). exact Hx.
  - exact (IH k x y Hnd' Hx Hy).
Qed.

Lemma nodup_map_fst_filter : forall (f : url * obj_source -> bool) l,
  NoDup (map fst l) -> NoDup (map fst (filter f l)).
Proof.
  intros f l. induction l as [|e l IH]; intro Hnd; cbn in *; [constructor|].
  inversion Hnd as [|? ? Hnotin Hnd']; subst.
  destruct (f e); cbn; [|exact (IH Hnd')].
  constructor; [|exact (IH Hnd')].
  intro Hin. apply Hnotin. apply in_map_iff in Hin as [e' [Ee' Hin]].
  apply filter_In in Hin as [Hin _]. rewrite <- Ee'. apply in_map. exact Hin.
Qed.

(** Two worlds that agree on the store and on the cells it is tied to. *)
Definition same_store (w w' : world) : Prop :=
  live_urls w' = live_urls w /\ next_url w' = next_url w
  /\ generatedVideoUrl (app w') = generatedVideoUrl (app w)
  /\ imagePreview (app w') = imagePreview (app w)
  /\ imageFile (app w') = imageFile (app w).

Lemma store_ok_same : forall w w', store_ok w -> same_store w w' -> store_ok w'.
Proof.
  intros w w' H [E1 [E2 [E3 [E4 E5]]]]. unfold store_ok in *.
  rewrite E1, E2, E3, E4, E5. exact H.
Qed.

Lemma revoke_keeps_preview : forall w u b p f,
  store_ok w -> In (u, SrcBlob b) (live_urls w) -> In (p, SrcFile f) (live_urls w) ->
  In (p, SrcFile f) (filter (fun e => negb (Nat.eqb (fst e) u)) (live_urls w)).
Proof.
  intros w u b p f [_ [Hnd _]] Hb Hp. apply filter_In. split; [exact Hp|].
  cbn. apply negb_true_iff, Nat.eqb_neq. intros ->.
  pose proof (nodup_fst_unique _ _ _ _ Hnd Hb Hp). discriminate.
Qed.

(** Clearing the result cell revokes its URL and keeps the store well formed. *)
Lemma store_ok_clear_video : forall w,
  store_ok w ->
  store_ok (setGeneratedVideoUrl None w)
  /\ generatedVideoUrl (app (setGeneratedVideoUrl None w)) = None.
Proof.
  intros w Hok. pose proof Hok as [Hlt [Hnd [Hgv [Hpv Hbl]]]].
  unfold setGeneratedVideoUrl.
  destruct (generatedVideoUrl (app w)) as [u|] eqn:G; cbn [opt_url_eqb];
    [|split; [exact Hok | exact G]].
  destruct (Hgv u eq_refl) as [b Hb].
  split; [|reflexivity].
  unfold store_ok; cbn. split; [|split; [|split; [|split]]].
  - apply Forall_forall. intros e He. apply filter_In in He as [He _].
    exact (proj1 (Forall_forall _ _) Hlt e He).
  - apply nodup_map_fst_filter. exact Hnd.
  - discriminate.
  - intros p Hp. destruct (Hpv p Hp) as [f [Hf Hin]]. exists f.
    split; [exact Hf | exact (revoke_keeps_preview w u b p f Hok Hb Hin)].
  - intros u' b' Hin. apply filter_In in Hin as [Hin Hne].
    pose proof (Hbl u' b' Hin) as G'. assert (u' = u) as -> by congruence.
    cbn in Hne. rewrite Nat.eqb_refl in Hne. discriminate.
Qed.

(** Storing a freshly created video URL keeps the store well formed. *)
Lemma store_ok_new_video : forall w b,
  store_ok w ->
  store_ok (setGeneratedVideoUrl (Some (next_url w)) (snd (createObjectURL (SrcBlob b) w))).
Proof.
  intros w b Hok. pose proof Hok as [Hlt [Hnd [Hgv [Hpv Hbl]]]].
  assert (Hbelow : forall k x, In (k, x) (live_urls w) -> k < next_url w)
    by (intros k x Hin; exact (proj1 (Forall_forall _ _) Hlt (k, x) Hin)).
  assert (Hfresh : ~ In (next_url w) (map fst (live_urls w))).
  { intro Hin. apply in_map_iff in Hin as [[k x] [Ek Hin]]. cbn in Ek; subst k.
    pose proof (Hbelow (next_url w) x Hin). lia. }
  unfold setGeneratedVideoUrl. cbn [snd createObjectURL app].
  destruct (generatedVideoUrl (app w)) as [u|] eqn:G.
  - destruct (Hgv u eq_refl) as [bu Hbu]. pose proof (Hbelow u _ Hbu) as Hun.
    cbn [opt_url_eqb]. rewrite (proj2 (Nat.eqb_neq u (next_url w))) by lia.
    unfold store_ok; cbn.
    rewrite (proj2 (Nat.eqb_neq (next_url w) u)) by lia. cbn.
    split; [|split; [|split; [|split]]].
    + constructor; [cbn; lia|]. apply Forall_forall. intros e He.
      apply filter_In in He as [He _]. destruct e as [k x]. cbn. pose proof (Hbelow k x He). lia.
    + constructor; [|apply nodup_map_fst_filter; exact Hnd].
      intro Hin. apply Hfresh. apply in_map_iff in Hin as [[k x] [Ek Hin]].
      apply filter_In in Hin as [Hin _]. cbn in Ek. subst k.
      apply (in_map fst _ (_, x)). exact Hin.
    + intros u' Eu. injection Eu as <-. exists b. left. reflexivity.
    + intros p Hp. destruct (Hpv p Hp) as [f [Hf Hin]]. exists f. split; [exact Hf|].
      right. exact (revoke_keeps_preview w u bu p f Hok Hbu Hin).
    + intros u' b' [E|Hin]; [injection E as <- _; reflexivity|].
      apply filter_In in Hin as [Hin Hne].
      pose proof (Hbl u' b' Hin) as G'. assert (u' = u) as -> by congruence.
      cbn in Hne. rewrite Nat.eqb_refl in Hne. discriminate.
  - cbn [opt_url_eqb]. unfold store_ok; cbn.
    split; [|split; [|split; [|split]]].
    + constructor; [cbn; lia|]. apply Forall_forall. intros [k x] He. cbn.
      pose proof (Hbelow k x He). lia.
    + constructor; [exact Hfresh | exact Hnd].
    + intros u' Eu. injection Eu as <-. exists b. left. reflexivity.
    + intros p Hp. destruct (Hpv p Hp) as [f [Hf Hin]]. exists f. split; [exact Hf | right; exact Hin].
    + intros u' b' [E|Hin]; [injection E as <- _; reflexivity|].
      pose proof (Hbl u' b' Hin) as G'. congruence.
Qed.

Lemma image_change_core : forall w1 f,
  store_ok w1 -> generatedVideoUrl (app w1) = None ->
  let w' := setImagePreview (Some (next_url w1))
              (snd (createObjectURL (SrcFile f) (setImageFile (Some f) w1))) in
  store_ok w' /\ live_urls w' = (next_url w1, SrcFile f) :: live_urls w1.
Proof.
  intros w1 f Hok G. pose proof Hok as [Hlt [Hnd [_ [_ Hbl]]]]. cbn zeta.
  split; [|reflexivity].
  unfold store_ok; cbn. rewrite G.
  split; [|split; [|split; [|split]]].
  - constructor; [cbn; lia|]. apply Forall_forall. intros [k x] He. cbn.
    pose proof (proj1 (Forall_forall _ _) Hlt (k, x) He). cbn in H. lia.
  - constructor; [|exact Hnd]. intro Hin. apply in_map_iff in Hin as [[k x] [Ek Hin]].
    cbn in Ek. subst k. pose proof (proj1 (Forall_forall _ _) Hlt (_, x) Hin). cbn in H. lia.
  - discriminate.
  - intros p Ep. injection Ep as <-. exists f. split; [reflexivity | left; reflexivity].
  - intros u b [E|Hin]; [discriminate|]. rewrite (Hbl u b Hin) in G. discriminate.
Qed.

Lemma image_change_split : forall w f,
  store_ok w ->
  exists w1, store_ok w1 /\ generatedVideoUrl (app w1) = None
    /\ next_url w1 = next_url w /\ imagePreview (app w1) = imagePreview (app w)
    /\ (forall p g, In (p, SrcFile g) (live_urls w) -> In (p, SrcFile g) (live_urls w1))
    /\ handleImageChange (Some f) w
       = setImagePreview (Some (next_url w1))
           (snd (createObjectURL (SrcFile f) (setImageFile (Some f) w1))).
Proof.
  intros w f Hok. unfold handleImageChange.
  destruct (generatedVideoUrl (app w)) as [u|] eqn:G.
  - destruct (store_ok_clear_video w Hok) as [Hok1 G1].
    exists (setGeneratedVideoUrl None w). split; [exact Hok1|]. split; [exact G1|].
    pose proof Hok as [_ [_ [Hgv _]]]. destruct (Hgv u G) as [b Hb].
    unfold setGeneratedVideoUrl. rewrite G. cbn. split; [reflexivity|]. split; [reflexivity|].
    split; [|reflexivity]. intros p g Hin. exact (revoke_keeps_preview w u b p g Hok Hb Hin).
  - exists w. split; [exact Hok|]. split; [exact G|]. split; [reflexivity|].
    split; [reflexivity|]. split; [intros p g Hin; exact Hin | reflexivity].
Qed.

Lemma handleImageChange_store_ok : forall f w,
  store_ok w -> store_ok (handleImageChange f w).
Proof.
  intros [f|] w Hok; [|exact Hok].
  destruct (image_change_split w f Hok) as [w1 [Hok1 [G1 [_ [_ [_ ->]]]]]].
  exact (proj1 (image_change_core w1 f Hok1 G1)).
Qed.

(** [handleImageChange] with a chosen file: the result cell is cleared and
    its URL revoked, so no video URL is live any more; the file becomes the
    selected image, and a fresh object URL created from it (never live
    before) becomes the preview. The URLs created from files stay live; in
    particular the previous preview URL, if any, is not revoked. *)
Theorem handleImageChange_replaces_image : forall w f,
  store_ok w ->
  store_ok (handleImageChange (Some f) w)
  /\ imageFile (app (handleImageChange (Some f) w)) = Some f
  /\ imagePreview (app (handleImageChange (Some f) w)) = Some (next_url w)
  /\ In (next_url w, SrcFile f) (live_urls (handleImageChange (Some f) w))
  /\ ~ In (next_url w) (map fst (live_urls w))
  /\ generatedVideoUrl (app (handleImageChange (Some f) w)) = None
  /\ (forall u b, ~ In (u, SrcBlob b) (live_urls (handleImageChange (Some f) w)))
  /\ (forall p g, In (p, SrcFile g) (live_urls w) ->
        In (p, SrcFile g) (live_urls (handleImageChange (Some f) w))).
Proof.
  intros w f Hok.
  assert (Hfresh : ~ In (next_url w) (map fst (live_urls w))).
  { destruct Hok as [Hlt _]. intro Hin. apply in_map_iff in Hin as [[k x] [Ek Hin]].
    cbn in Ek. subst k. pose proof (proj1 (Forall_forall _ _) Hlt (_, x) Hin). cbn in H. lia. }
  destruct (image_change_split w f Hok) as [w1 [Hok1 [G1 [N1 [_ [Hkeep ->]]]]]].
  destruct (image_change_core w1 f Hok1 G1) as [Hok' L']. cbn zeta in Hok', L'.
  pose proof Hok' as [_ [_ [_ [_ Hbl']]]].
  split; [exact Hok'|]. split; [reflexivity|]. split; [rewrite N1; reflexivity|].
  split; [rewrite L', N1; left; reflexivity|]. split; [exact Hfresh|].
  split; [cbn; exact G1|]. split.
  - intros u b Hin. specialize (Hbl' u b Hin). cbn in Hbl'. congruence.
  - intros p g Hin. rewrite L'. right. exact (Hkeep p g Hin).
Qed.

Lemma handleImageChange_replaces_image_witness :
  imagePreview (app (handleImageChange (Some second_file) sample_world)) = Some 1.
Proof.
  assert (Hok : store_ok sample_world).
  { unfold store_ok; cbn. split; [|split; [|split; [|split]]].
    - repeat constructor.
    - repeat constructor; cbn; intuition discriminate.
    - discriminate.
    - intros p Ep. injection Ep as <-. exists sample_file. split; [reflexivity | left; reflexivity].
    - intros u b [E|[]]; discriminate. }
  exact (proj1 (proj2 (proj2 (handleImageChange_replaces_image sample_world second_file Hok)))).
Defined.

(** ** The store through every step *)

Lemma issue_same : forall c w, same_store w (issue c w).
Proof. intros; repeat split; reflexivity. Qed.

Lemma after_loop_same : forall op w, same_store w (snd (after_loop op w)).
Proof.
  intros op w. unfold after_loop.
  destruct (op_uri op) as [[|? ?]|], (env_api_key w) as [[|? ?]|];
    cbn; try apply issue_same; repeat split; reflexivity.
Qed.

Lemma loop_check_same : forall op w, same_store w (snd (loop_check op w)).
Proof.
  intros op w. unfold loop_check. destruct (op_done op); cbn;
    [apply after_loop_same | apply issue_same].
Qed.

Lemma body_resume_store_ok : forall ctx p s w r,
  store_ok w -> body_resume ctx p s w = Some r -> store_ok (snd r).
Proof.
  intros ctx p s w r Hok H.
  assert (Hs : forall w', same_store w w' -> store_ok w')
    by (intros w' E; exact (store_ok_same w w' Hok E)).
  destruct p; destruct s as [v|e]; try destruct v; cbn [body_resume] in H;
    try discriminate;
    try (destruct (negb (resp_ok _)));
    injection H as <-; cbn [snd];
    first [ apply store_ok_new_video; exact Hok
          | apply Hs; first [ apply loop_check_same | apply issue_same
                            | repeat split; reflexivity ] ].
Qed.

Lemma try_catch_finally_store_ok : forall r, store_ok (snd r) -> store_ok (snd (try_catch_finally r)).
Proof.
  intros [[q|e|] w] Hok; cbn in *; [exact Hok | |];
    apply (store_ok_same w); [exact Hok | | exact Hok | ];
    unfold finally_clause, handle_error;
    try (destruct (includes (message_of e) entity_not_found));
    repeat split; reflexivity.
Qed.

Lemma resume_store_ok : forall ctx p s w p' w',
  store_ok w -> resume ctx p s w = Some (p', w') -> store_ok w'.
Proof.
  intros ctx p s w p' w' Hok H. unfold resume in H.
  destruct (body_resume ctx p s w) as [r|] eqn:E; cbn in H; [|discriminate].
  injection H as H. pose proof (try_catch_finally_store_ok r (body_resume_store_ok _ _ _ _ _ Hok E)).
  rewrite H in H0. exact H0.
Qed.

Lemma body_start_store_ok : forall ctx w, store_ok w -> store_ok (snd (body_start ctx w)).
Proof.
  intros ctx w Hok. unfold body_start.
  destruct (new_GoogleGenAI w); cbn [snd]; [exact Hok|].
  exact (store_ok_same _ _ Hok (issue_same _ _)).
Qed.

Lemma handleGenerateVideo_store_ok : forall img pr ar g w p w',
  store_ok w -> handleGenerateVideo img pr ar g w = (p, w') -> store_ok w'.
Proof.
  intros img pr ar g w p w' Hok H. unfold handleGenerateVideo in H.
  assert (Hv : store_ok (setError (Some validation_msg) w))
    by (apply (store_ok_same w); [exact Hok | repeat split; reflexivity]).
  destruct img as [f|]; [destruct (String.eqb pr "")|]; cbv beta iota zeta in H;
    try (injection H as <- <-; exact Hv).
  assert (H1 : store_ok (setError None (setIsLoading true w)))
    by (apply (store_ok_same w); [exact Hok | repeat split; reflexivity]).
  match type of H with
  | try_catch_finally (body_start ?c ?w2) = _ =>
      assert (H2 : store_ok w2) by (destruct g; [apply store_ok_clear_video|]; exact H1);
      pose proof (try_catch_finally_store_ok _ (body_start_store_ok c w2 H2)) as K
  end.
  rewrite H in K. exact K.
Qed.

Lemma create_another_core : forall w,
  store_ok w ->
  let w' := setImagePreview None (setImageFile None (setGeneratedVideoUrl None w)) in
  store_ok w' /\ generatedVideoUrl (app w') = None
  /\ (forall u b, ~ In (u, SrcBlob b) (live_urls w'))
  /\ (forall p g, In (p, SrcFile g) (live_urls w) -> In (p, SrcFile g) (live_urls w')).
Proof.
  intros w Hok. cbn zeta.
  destruct (store_ok_clear_video w Hok) as [Hok1 G1].
  pose proof Hok1 as [Hlt1 [Hnd1 [_ [_ Hbl1]]]].
  assert (Hnob : forall u b, ~ In (u, SrcBlob b) (live_urls (setGeneratedVideoUrl None w))).
  { intros u b Hin. rewrite (Hbl1 u b Hin) in G1. discriminate. }
  split; [|split; [exact G1|split; [exact Hnob|]]].
  - unfold store_ok; cbn. split; [exact Hlt1|]. split; [exact Hnd1|].
    split; [rewrite G1; discriminate|]. split; [discriminate|].
    intros u b Hin. destruct (Hnob u b Hin).
  - intros p g Hin. cbn. unfold setGeneratedVideoUrl.
    destruct (generatedVideoUrl (app w)) as [u|] eqn:G; cbn [opt_url_eqb]; [|exact Hin].
    pose proof Hok as [_ [_ [Hgv _]]]. destruct (Hgv u G) as [b Hb].
    exact (revoke_keeps_preview w u b p g Hok Hb Hin).
Qed.

(** "Create Another Video": the result cell is cleared and its URL revoked,
    so no video URL is live any more, and the image and its preview are
    cleared; the URLs created from files are not revoked. *)
Theorem create_another_resets : forall st st',
  store_ok (sworld st) -> step st EvCreateAnother = Some st' ->
  store_ok (sworld st')
  /\ generatedVideoUrl (app (sworld st')) = None
  /\ imageFile (app (sworld st')) = None
  /\ imagePreview (app (sworld st')) = None
  /\ (forall u b, ~ In (u, SrcBlob b) (live_urls (sworld st')))
  /\ (forall p g, In (p, SrcFile g) (live_urls (sworld st)) ->
        In (p, SrcFile g) (live_urls (sworld st')))
  /\ flows st' = flows st.
Proof.
  intros st st' Hok H. cbn [step] in H. injection H as <-. cbn [sworld flows].
  destruct (create_another_core (sworld st) Hok) as [Hok' [G' [Hnob Hkeep]]].
  cbn zeta in *. split; [exact Hok'|]. split; [exact G'|].
  split; [reflexivity|]. split; [reflexivity|]. split; [exact Hnob|].
  split; [exact Hkeep | reflexivity].
Qed.

Lemma step_store_ok : forall st ev st',
  store_ok (sworld st) -> step st ev = Some st' -> store_ok (sworld st').
Proof.
  intros st ev st' Hok H.
  assert (Hs : forall w', same_store (sworld st) w' -> store_ok w')
    by (intros w' E; exact (store_ok_same _ w' Hok E)).
  destruct ev; cbn [step] in H.
  - injection H as <-. apply Hs. repeat split; reflexivity.
  - injection H as <-. apply Hs. repeat split; reflexivity.
  - injection H as <-. apply Hs. repeat split; reflexivity.
  - injection H as <-. apply handleImageChange_store_ok. exact Hok.
  - injection H as <-. apply Hs. repeat split; reflexivity.
  - injection H as <-. apply Hs. repeat split; reflexivity.
  - injection H as <-. unfold sys_generate.
    destruct (handleGenerateVideo _ _ _ _ _) as [p w'] eqn:E.
    pose proof (handleGenerateVideo_store_ok _ _ _ _ _ _ _ Hok E) as Hok'.
    destruct (imageFile (app (sworld st))); [destruct (is_done p)|]; exact Hok'.
  - injection H as <-. exact (proj1 (create_another_core (sworld st) Hok)).
  - injection H as <-. apply Hs. repeat split; reflexivity.
  - destruct (nth_error (flows st) i) as [fl|]; [|discriminate].
    destruct (resume (fl_ctx fl) (fl_phase fl) s (sworld st)) as [[p' w']|] eqn:E;
      [|discriminate].
    pose proof (resume_store_ok _ _ _ _ _ _ Hok E) as Hok'.
    destruct (is_done p'); injection H as <-; exact Hok'.
Qed.

Lemma run_events_store_ok : forall evs st st',
  store_ok (sworld st) -> run_events st evs = Some st' -> store_ok (sworld st').
Proof.
  induction evs as [|ev evs IH]; intros st st' Hok H; cbn in H.
  - injection H as <-. exact Hok.
  - destruct (step st ev) as [st1|] eqn:E; [|discriminate].
    exact (IH st1 st' (step_store_ok st ev st1 Hok E) H).
Qed.

Lemma initial_store_ok : forall key, store_ok (sworld (initial key)).
Proof.
  intro key. unfold store_ok; cbn. split; [constructor|]. split; [constructor|].
  split; [discriminate|]. split; [discriminate|]. intros u b [].
Qed.

(** ** Cells the generation flow leaves alone *)

(** The form cells: the selected image and its preview, the prompt and the
    aspect ratio. *)
Definition same_selection (w w' : world) : Prop :=
  imageFile (app w') = imageFile (app w) /\ imagePreview (app w') = imagePreview (app w)
  /\ prompt (app w') = prompt (app w) /\ aspectRatio (app w') = aspectRatio (app w).

Definition keeps_form (w w' : world) : Prop :=
  same_selection w w' /\ loadingMessage (app w') = loadingMessage (app w).

Lemma keeps_form_trans : forall w1 w2 w3, keeps_form w1 w2 -> keeps_form w2 w3 -> keeps_form w1 w3.
Proof.
  intros w1 w2 w3 [[A1 [B1 [C1 D1]]] E1] [[A2 [B2 [C2 D2]]] E2].
  repeat split; congruence.
Qed.

Ltac keeps_form_refl := repeat split; reflexivity.

Lemma setGeneratedVideoUrl_keeps_form : forall v w, keeps_form w (setGeneratedVideoUrl v w).
Proof.
  intros v w. unfold setGeneratedVideoUrl.
  destruct (opt_url_eqb (generatedVideoUrl (app w)) v); [keeps_form_refl|].
  destruct (generatedVideoUrl (app w)); keeps_form_refl.
Qed.

Lemma loop_check_keeps_form : forall op w, keeps_form w (snd (loop_check op w)).
Proof.
  intros op w. unfold loop_check, after_loop. destruct (op_done op); cbn [negb];
    [|keeps_form_refl].
  destruct (op_uri op) as [[|? ?]|], (env_api_key w) as [[|? ?]|]; cbn; keeps_form_refl.
Qed.

Lemma body_resume_keeps_form : forall ctx p s w r,
  body_resume ctx p s w = Some r -> keeps_form w (snd r).
Proof.
  intros ctx p s w r H.
  destruct p; destruct s as [v|e]; try destruct v; cbn [body_resume] in H;
    try discriminate;
    try (destruct (negb (resp_ok _)));
    injection H as <-; cbn [snd];
    first [ apply loop_check_keeps_form
          | apply (keeps_form_trans _ (snd (createObjectURL (SrcBlob b) w)));
              [keeps_form_refl | apply setGeneratedVideoUrl_keeps_form]
          | keeps_form_refl ].
Qed.

Lemma try_catch_finally_keeps_form : forall r, keeps_form (snd r) (snd (try_catch_finally r)).
Proof.
  intros [[q|e|] w]; cbn; [keeps_form_refl | |keeps_form_refl].
  unfold finally_clause, handle_error.
  destruct (includes (message_of e) entity_not_found); keeps_form_refl.
Qed.

Lemma resume_keeps_form : forall ctx p s w p' w',
  resume ctx p s w = Some (p', w') -> keeps_form w w'.
Proof.
  intros ctx p s w p' w' H. unfold resume in H.
  destruct (body_resume ctx p s w) as [r|] eqn:E; cbn in H; [|discriminate].
  injection H as H.
  pose proof (try_catch_finally_keeps_form r) as K. rewrite H in K.
  exact (keeps_form_trans _ _ _ (body_resume_keeps_form _ _ _ _ _ E) K).
Qed.

Lemma body_start_keeps_form : forall ctx w, keeps_form w (snd (body_start ctx w)).
Proof.
  intros ctx w. unfold body_start. destruct (new_GoogleGenAI w); keeps_form_refl.
Qed.

Lemma handleGenerateVideo_keeps_form : forall img pr ar g w p w',
  handleGenerateVideo img pr ar g w = (p, w') -> keeps_form w w'.
Proof.
  intros img pr ar g w p w' H. unfold handleGenerateVideo in H.
  destruct img as [f|]; [destruct (String.eqb pr "")|]; cbv beta iota zeta in H;
    try (injection H as <- <-; keeps_form_refl).
  match type of H with
  | try_catch_finally (body_start ?c ?w2) = _ =>
      assert (K1 : keeps_form w w2)
        by (destruct g;
            [ apply (keeps_form_trans _ (setError None (setIsLoading true w)));
                [keeps_form_refl | apply setGeneratedVideoUrl_keeps_form]
            | keeps_form_refl ]);
      pose proof (keeps_form_trans _ _ _ K1
                    (keeps_form_trans _ _ _ (body_start_keeps_form c w2)
                       (try_catch_finally_keeps_form (body_start c w2)))) as K
  end.
  rewrite H in K. exact K.
Qed.

Lemma handleImageChange_loadingMessage : forall f w,
  loadingMessage (app (handleImageChange f w)) = loadingMessage (app w).
Proof.
  intros [f|] w; [|reflexivity]. unfold handleImageChange.
  destruct (generatedVideoUrl (app w)); cbn; [|reflexivity].
  exact (proj2 (setGeneratedVideoUrl_keeps_form None w)).
Qed.

Lemma nextLoadingMessage_in : forall prev,
  exists m, nextLoadingMessage prev = Some m /\ In m loadingMessages.
Proof.
  intro prev. unfold nextLoadingMessage.
  destruct (indexOf_loadingMessages prev) as [[_ [_ R]] | [_ E]].
  - destruct (indexOf loadingMessages prev) as [|p|p]; try lia.
    + eexists; split; [reflexivity | unfold loadingMessages; cbn [In]; intuition].
    + assert (Hp : (Z.pos p = 1 \/ Z.pos p = 2 \/ Z.pos p = 3 \/ Z.pos p = 4)%Z) by lia.
      destruct Hp as [Hp|[Hp|[Hp|Hp]]]; rewrite Hp;
        (eexists; split; [reflexivity | unfold loadingMessages; cbn [In]; intuition]).
  - rewrite E. eexists; split; [reflexivity | unfold loadingMessages; cbn [In]; intuition].
Qed.

Lemma step_loadingMessage_in : forall st ev st',
  In (loadingMessage (app (sworld st))) loadingMessages -> step st ev = Some st' ->
  In (loadingMessage (app (sworld st'))) loadingMessages.
Proof.
  intros st ev st' Hin H. destruct ev; cbn [step] in H.
  1-3,5-6: injection H as <-; exact Hin.
  - injection H as <-. cbn [sworld]. rewrite handleImageChange_loadingMessage. exact Hin.
  - injection H as <-. unfold sys_generate.
    destruct (handleGenerateVideo _ _ _ _ _) as [p w'] eqn:E.
    pose proof (proj2 (handleGenerateVideo_keeps_form _ _ _ _ _ _ _ E)) as K.
    destruct (imageFile (app (sworld st))); [destruct (is_done p)|]; cbn [sworld];
      rewrite K; exact Hin.
  - injection H as <-. cbn [sworld].
    pose proof (proj2 (setGeneratedVideoUrl_keeps_form None (sworld st))) as K.
    cbn. rewrite K. exact Hin.
  - injection H as <-. cbn [sworld].
    destruct (nextLoadingMessage_in (loadingMessage (app (sworld st)))) as [m [-> Hm]].
    exact Hm.
  - destruct (nth_error (flows st) i) as [fl|]; [|discriminate].
    destruct (resume (fl_ctx fl) (fl_phase fl) s (sworld st)) as [[p' w']|] eqn:E;
      [|discriminate].
    pose proof (proj2 (resume_keeps_form _ _ _ _ _ _ E)) as K.
    destruct (is_done p'); injection H as <-; cbn [sworld]; rewrite K; exact Hin.
Qed.

Lemma run_events_loadingMessage_in : forall evs st st',
  In (loadingMessage (app (sworld st))) loadingMessages -> run_events st evs = Some st' ->
  In (loadingMessage (app (sworld st'))) loadingMessages.
Proof.
  induction evs as [|ev evs IH]; intros st st' Hin H; cbn in H.
  - injection H as <-. exact Hin.
  - destruct (step st ev) as [st1|] eqn:E; [|discriminate].
    exact (IH st1 st' (step_loadingMessage_in st ev st1 Hin E) H).
Qed.

(** ** Runs from mount *)

(** A run through the UI that ends with a video on screen. *)
Definition done_op : operation := mkOp true (Some "https://example.invalid/v1?alt=media").

Definition video_run : list event :=
  [ EvKeyChecked true; EvImageChange (Some sample_file); EvClickGenerate None; EvTick;
    EvSettle 0 (Resolve (VStr "data:image/jpeg;base64,AAAA"));
    EvSettle 0 (Resolve (VOp done_op));
    EvSettle 0 (Resolve (VResp (mkResp true "OK")));
    EvSettle 0 (Resolve (VBlob (mkBlob 7))) ].

Definition sys_after (evs : list event) : sys :=
  match run_events (initial (Some "key")) evs with Some st => st | None => initial None end.

Definition video_sys : sys := Eval vm_compute in sys_after video_run.

Definition form_sys : sys :=
  Eval vm_compute in sys_after [EvKeyChecked true; EvImageChange (Some sample_file)].

Lemma ui_run_run_events : forall evs st st',
  ui_run st evs = Some st' -> run_events st evs = Some st'.
Proof.
  induction evs as [|ev evs IH]; intros st st' H; cbn in H |- *; [exact H|].
  unfold ui_step in H. destruct (enabled st ev); [|discriminate].
  destruct (step st ev) as [st1|]; [exact (IH st1 st' H) | discriminate].
Qed.

(** The object URLs over any run from mount driven through the rendered
    controls (one flow in flight at most): the URL in [generatedVideoUrl] is a
    live URL created from a video blob, the preview URL is a live URL
    created from the selected file, every live URL created from a video
    blob is the one in [generatedVideoUrl] (so at most one is live), and no
    URL is live twice. *)
Theorem object_urls_from_mount : forall key evs st,
  ui_run (initial key) evs = Some st ->
  (forall u, generatedVideoUrl (app (sworld st)) = Some u ->
     exists b, In (u, SrcBlob b) (live_urls (sworld st)))
  /\ (forall p, imagePreview (app (sworld st)) = Some p ->
     exists f, imageFile (app (sworld st)) = Some f /\ In (p, SrcFile f) (live_urls (sworld st)))
  /\ (forall u b, In (u, SrcBlob b) (live_urls (sworld st)) ->
        generatedVideoUrl (app (sworld st)) = Some u)
  /\ (forall u b u' b', In (u, SrcBlob b) (live_urls (sworld st)) ->
        In (u', SrcBlob b') (live_urls (sworld st)) -> u = u' /\ b = b')
  /\ NoDup (map fst (live_urls (sworld st))).
Proof.
  intros key evs st H.
  destruct (run_events_store_ok evs _ st (initial_store_ok key) (ui_run_run_events _ _ _ H))
    as [_ [Hnd [Hgv [Hpv Hbl]]]].
  split; [exact Hgv|]. split; [exact Hpv|]. split; [exact Hbl|]. split; [|exact Hnd].
  intros u b u' b' Hu Hu'.
  pose proof (Hbl u b Hu) as G. pose proof (Hbl u' b' Hu') as G'.
  assert (u' = u) as -> by congruence. split; [reflexivity|].
  pose proof (nodup_fst_unique _ _ _ _ Hnd Hu Hu') as E. congruence.
Qed.

(** The loading message shown is always one of the five messages of
    [loadingMessages], over any run from mount. *)
Theorem loading_message_from_mount : forall key evs st,
  run_events (initial key) evs = Some st ->
  In (loadingMessage (app (sworld st))) loadingMessages.
Proof.
  intros key evs st H. refine (run_events_loadingMessage_in evs _ st _ H).
  cbn. left. reflexivity.
Qed.

(** Starting a generation and settling any of its awaits never change the
    selected image, its preview, the prompt or the aspect ratio. *)
Theorem generation_keeps_selection :
  (forall st i s st', step st (EvSettle i s) = Some st' ->
     same_selection (sworld st) (sworld st'))
  /\ (forall st g st', step st (EvClickGenerate g) = Some st' ->
     same_selection (sworld st) (sworld st')).
Proof.
  split.
  - intros st i s st' H. cbn [step] in H.
    destruct (nth_error (flows st) i) as [fl|]; [|discriminate].
    destruct (resume (fl_ctx fl) (fl_phase fl) s (sworld st)) as [[p' w']|] eqn:E;
      [|discriminate].
    pose proof (proj1 (resume_keeps_form _ _ _ _ _ _ E)) as K.
    destruct (is_done p'); injection H as <-; exact K.
  - intros st g st' H. cbn [step] in H. injection H as <-. unfold sys_generate.
    destruct (handleGenerateVideo _ _ _ _ _) as [p w'] eqn:E.
    pose proof (proj1 (handleGenerateVideo_keeps_form _ _ _ _ _ _ _ E)) as K.
    destruct (imageFile (app (sworld st))); [destruct (is_done p)|]; exact K.
Qed.

(** When the Generate button is enabled (a file and a non-empty prompt,
    nothing loading, the form on screen) and [process.env.API_KEY] is set
    (so creating the client succeeds), clicking it starts exactly one
    new flow, suspended at reading the selected file, whose context is the
    file, prompt and aspect ratio of that moment; it sets [isLoading],
    clears [error], asks to read the file and nothing else, creates no
    object URL, and the loading screen is shown. *)
Theorem click_starts_flow : forall st g,
  enabled st (EvClickGenerate g) = true -> env_api_key (sworld st) <> None ->
  exists f st', imageFile (app (sworld st)) = Some f
    /\ step st (EvClickGenerate g) = Some st'
    /\ flows st' = (flows st ++ [mkFlow (mkCtx f (prompt (app (sworld st)))
                                           (aspectRatio (app (sworld st)))) PReadFile])%list
    /\ isLoading (app (sworld st')) = true
    /\ error (app (sworld st')) = None
    /\ calls (sworld st') = (calls (sworld st) ++ [CReadDataURL f])%list
    /\ live_urls (sworld st') = live_urls (sworld st)
    /\ screen_of (app (sworld st')) = ScrLoading.
Proof.
  intros [[[ks img pv pr ar ld lm gv er] live nxt cl key] fls] g H Hk.
  destruct key as [k|]; [|contradiction].
  destruct ks as [[|]|], ld, gv, img as [f|], pr as [|c pr]; cbn in H; try discriminate.
  exists f. eexists. split; [reflexivity|]. split; [reflexivity|].
  destruct g; cbn; repeat split; reflexivity.
Qed.

(** When the Generate button is enabled but [process.env.API_KEY] is
    unset, creating the client throws inside the [try]: the click ends at
    once, caught, with no flow in flight, no external call, no object URL
    created, [isLoading] cleared, the error "Failed to generate video: "
    followed by the client's message, and the form shown again. *)
Theorem click_without_key_fails : forall st g,
  enabled st (EvClickGenerate g) = true -> env_api_key (sworld st) = None ->
  exists st', step st (EvClickGenerate g) = Some st'
    /\ flows st' = flows st
    /\ isLoading (app (sworld st')) = false
    /\ error (app (sworld st')) = Some ("Failed to generate video: " ++ genai_no_key_msg)
    /\ calls (sworld st') = calls (sworld st)
    /\ live_urls (sworld st') = live_urls (sworld st)
    /\ screen_of (app (sworld st')) = ScrForm.
Proof.
  intros [[[ks img pv pr ar ld lm gv er] live nxt cl key] fls] g H Hk.
  cbn in Hk. subst key.
  destruct ks as [[|]|], ld, gv, img as [f|], pr as [|c pr]; cbn in H; try discriminate.
  eexists. split; [reflexivity|].
  destruct g; repeat split; reflexivity.
Qed.

(** Without an API key ([process.env.API_KEY] unset or empty), a job
    reported done ends the flow with the same error as a missing video URI,
    whatever the URI: no fetch is issued, no object URL is created, the
    result cell is untouched and loading stops. *)
Theorem missing_api_key_no_fetch : forall ctx p op w,
  (p = PGenerate \/ exists op0, p = PPoll op0) ->
  op_done op = true -> truthy (env_api_key w) = false ->
  exists w', resume ctx p (Resolve (VOp op)) w = Some (PDone Fulfilled, w')
    /\ error (app w') = Some ("Failed to generate video: " ++ no_uri_msg)
    /\ calls w' = calls w /\ live_urls w' = live_urls w
    /\ generatedVideoUrl (app w') = generatedVideoUrl (app w)
    /\ isLoading (app w') = false.
Proof.
  intros ctx p op w Hp Hd Hk.
  assert (E : resume ctx p (Resolve (VOp op)) w
              = Some (PDone Fulfilled, finally_clause (handle_error (ErrorObj no_uri_msg) w))).
  { destruct Hp as [-> | [op0 ->]]; unfold resume; cbn [body_resume];
      unfold loop_check, after_loop; rewrite Hd, Hk, andb_false_r; reflexivity. }
  rewrite E. eexists; split; [reflexivity|].
  unfold handle_error, message_of. rewrite no_uri_msg_not_auth.
  repeat split; reflexivity.
Qed.

(** A settled await that rejects with an error whose message contains
    "Requested entity was not found" ends its flow on the API-key screen:
    the error cell holds the invalid-key message, and the only events the UI then
    offers are "Select API Key" and the settlement of awaits still in
    flight (no form event, no Generate click, no loading tick). *)
Theorem auth_failure_key_screen : forall st i e st',
  includes (message_of e) entity_not_found = true ->
  step st (EvSettle i (Reject e)) = Some st' ->
  screen_of (app (sworld st')) = ScrKey
  /\ error (app (sworld st')) = Some auth_msg
  /\ (forall ev, enabled st' ev = true -> ev = EvSelectKey \/ exists j s, ev = EvSettle j s).
Proof.
  intros st i e st' Hinc H. cbn [step] in H.
  destruct (nth_error (flows st) i) as [fl|]; [|discriminate].
  unfold resume in H.
  destruct (fl_phase fl); cbn [body_resume option_map try_catch_finally is_done] in H;
    try discriminate;
    injection H as <-; unfold finally_clause, handle_error; rewrite Hinc;
    (split; [reflexivity | split; [reflexivity|]]);
    intros ev Hen; destruct ev; cbn in Hen; try discriminate;
    first [left; reflexivity | right; eexists; eexists; reflexivity].
Qed.

(** ** Witnesses *)

Lemma sample_world_store_ok : store_ok sample_world.
Proof.
  unfold store_ok; cbn. split; [|split; [|split; [|split]]].
  - repeat constructor.
  - repeat constructor; cbn; intuition discriminate.
  - discriminate.
  - intros p Ep. injection Ep as <-. exists sample_file. split; [reflexivity | left; reflexivity].
  - intros u b [E|[]]; discriminate.
Qed.

Lemma create_another_resets_witness :
  exists st', step video_sys EvCreateAnother = Some st'
    /\ generatedVideoUrl (app (sworld st')) = None
    /\ live_urls (sworld st') = [(0, SrcFile sample_file)].
Proof.
  assert (Hok : store_ok (sworld video_sys))
    by exact (run_events_store_ok video_run _ video_sys (initial_store_ok (Some "key"))
                 ltac:(vm_compute; reflexivity)).
  eexists. split; [reflexivity|]. split; [|reflexivity].
  exact (proj1 (proj2 (create_another_resets video_sys _ Hok eq_refl))).
Defined.

Definition form_sys_no_key : sys :=
  Eval vm_compute in
    match run_events (initial None) [EvKeyChecked true; EvImageChange (Some sample_file)] with
    | Some st => st | None => initial None end.

Lemma click_without_key_fails_witness :
  exists st', step form_sys_no_key (EvClickGenerate None) = Some st'
    /\ isLoading (app (sworld st')) = false /\ flows st' = [].
Proof.
  destruct (click_without_key_fails form_sys_no_key None
              ltac:(vm_compute; reflexivity) ltac:(vm_compute; reflexivity))
    as [st' [H1 [H2 [H3 _]]]].
  exists st'. split; [exact H1|]. split; [exact H3 | rewrite H2; reflexivity].
Defined.

Lemma object_urls_from_mount_witness :
  generatedVideoUrl (app (sworld video_sys)) = Some 1
  /\ exists b, In (1, SrcBlob b) (live_urls (sworld video_sys)).
Proof.
  split; [reflexivity|].
  exact (proj1 (object_urls_from_mount (Some "key") video_run video_sys
                 ltac:(vm_compute; reflexivity)) 1 eq_refl).
Defined.

Lemma loading_message_from_mount_witness :
  In (loadingMessage (app (sworld video_sys))) loadingMessages.
Proof. exact (loading_message_from_mount (Some "key") video_run video_sys
                 ltac:(vm_compute; reflexivity)). Defined.

Lemma generation_keeps_selection_witness :
  exists st', step (mkSys sample_world [mkFlow sample_ctx PGenerate])
                (EvSettle 0 (Resolve (VOp pending_op))) = Some st'
    /\ same_selection sample_world (sworld st').
Proof.
  eexists. split; [reflexivity|].
  exact (proj1 generation_keeps_selection (mkSys sample_world [mkFlow sample_ctx PGenerate])
           0 (Resolve (VOp pending_op)) _ eq_refl).
Defined.

Lemma click_starts_flow_witness :
  exists f st', imageFile (app (sworld form_sys)) = Some f
    /\ step form_sys (EvClickGenerate None) = Some st'
    /\ screen_of (app (sworld st')) = ScrLoading.
Proof.
  destruct (click_starts_flow form_sys None ltac:(vm_compute; reflexivity)
              ltac:(vm_compute; discriminate))
    as [f [st' [H1 [H2 [_ [_ [_ [_ [_ H8]]]]]]]]].
  exists f, st'. split; [exact H1|]. split; [exact H2 | exact H8].
Defined.

Lemma missing_api_key_no_fetch_witness :
  exists w', resume sample_ctx PGenerate (Resolve (VOp done_op))
               (mkWorld (app sample_world) (live_urls sample_world) 1 [] None)
             = Some (PDone Fulfilled, w')
    /\ calls w' = [].
Proof.
  destruct (missing_api_key_no_fetch sample_ctx PGenerate done_op
              (mkWorld (app sample_world) (live_urls sample_world) 1 [] None)
              (or_introl eq_refl) eq_refl eq_refl) as [w' [H1 [_ [H3 _]]]].
  exists w'. split; [exact H1 | exact H3].
Defined.

Lemma auth_failure_key_screen_witness :
  exists st', step (mkSys sample_world [mkFlow sample_ctx PGenerate])
                (EvSettle 0 (Reject (ErrorObj "404 Requested entity was not found."))) = Some st'
    /\ screen_of (app (sworld st')) = ScrKey.
Proof.
  eexists. split; [reflexivity|].
  exact (proj1 (auth_failure_key_screen (mkSys sample_world [mkFlow sample_ctx PGenerate]) 0
                  (ErrorObj "404 Requested entity was not found.") _ eq_refl eq_refl)).
Defined.
